(** * Folder tags: the tag resolver and the content patcher

    A shallow embedding of the plugin class [FolderTagsPlugin], followed by
    the properties of its specification.  The class is embedded in the
    revision whose tags are [FolderTag] objects, [{ tag, inherited }]; the
    other revision the repository holds, whose tags are strings, is
    embedded next to it in the module [StringTags] where the two differ.

    Conventions of the embedding.
    - A JavaScript string is the list of its UTF-16 code units ([jstring]).
    - A [FolderTag] object carries its identity ([oid]): [Set] and
      [Array.from(new Set(..))] compare objects by reference, so two objects
      with equal fields are still two members.  Object literals evaluated by
      the code allocate a fresh identity from a counter that is threaded
      through ([Alloc]).
    - [await]ed host services are arguments: the text returned by
      [vault.read], the record returned by [metadataCache.getFileCache], the
      files returned by [vault.getFiles]; a call of [vault.modify] is the
      [Write] outcome. *)

From Stdlib Require Import Ascii String DecimalString.
From Stdlib Require Import List Bool Arith NArith Lia.
Import ListNotations.

(** ** Strings *)

Definition char := N.
Definition jstring := list char.

(** Source literals.  [lit] reads a literal the way the TypeScript source
    writes it: a backslash followed by n, r or t stands for a line feed, a
    carriage return or a tab. *)
Fixpoint lit (s : string) : jstring :=
  match s with
  | EmptyString => []
  | String c r =>
      match c, r with
      | "\"%char, String "n"%char r' => 10%N :: lit r'
      | "\"%char, String "r"%char r' => 13%N :: lit r'
      | "\"%char, String "t"%char r' => 9%N :: lit r'
      | _, _ => N_of_ascii c :: lit r
      end
  end.

Fixpoint str_eqb (a b : jstring) : bool :=
  match a, b with
  | [], [] => true
  | x :: a', y :: b' => N.eqb x y && str_eqb a' b'
  | _, _ => false
  end.

(** A string is truthy when it is not empty. *)
Definition truthy (s : jstring) : bool :=
  match s with [] => false | _ :: _ => true end.

Definition LF : char := 10%N.
Definition SLASH : char := 47%N.
Definition COLON : char := 58%N.
Definition COMMA : char := 44%N.
Definition HASH : char := 35%N.
Definition DOLLAR : char := 36%N.
Definition SPACE : char := 32%N.

(** [s.split(sep)] for a one-character separator: never the empty array. *)
Fixpoint split (sep : char) (s : jstring) : list jstring :=
  match s with
  | [] => [[]]
  | c :: s' =>
      if N.eqb c sep then [] :: split sep s'
      else match split sep s' with
           | [] => [[c]]
           | p :: ps => (c :: p) :: ps
           end
  end.

(** [parts.join(sep)] *)
Fixpoint join (sep : jstring) (parts : list jstring) : jstring :=
  match parts with
  | [] => []
  | [p] => p
  | p :: ps => p ++ sep ++ join sep ps
  end.

(** White space of [String.prototype.trim] and of the pattern [\s]:
    WhiteSpace and LineTerminator code units. *)
Definition is_space (c : char) : bool :=
  ((9 <=? c) && (c <=? 13) || (c =? 32) || (c =? 160) || (c =? 5760)
   || (8192 <=? c) && (c <=? 8202) || (c =? 8232) || (c =? 8233)
   || (c =? 8239) || (c =? 8287) || (c =? 12288) || (c =? 65279))%N.

(** Word characters of the pattern [\b] (no unicode flag): [A-Za-z0-9_]. *)
Definition is_word (c : char) : bool :=
  ((48 <=? c) && (c <=? 57) || (65 <=? c) && (c <=? 90) || (c =? 95)
   || (97 <=? c) && (c <=? 122))%N.

Fixpoint trimStart (s : jstring) : jstring :=
  match s with
  | [] => []
  | c :: r => if is_space c then trimStart r else s
  end.

Fixpoint trimEnd (s : jstring) : jstring :=
  match s with
  | [] => []
  | c :: r =>
      match trimEnd r with
      | [] => if is_space c then [] else [c]
      | r' => c :: r'
      end
  end.

Definition trim (s : jstring) : jstring := trimEnd (trimStart s).

Fixpoint startsWith (s p : jstring) : bool :=
  match p, s with
  | [], _ => true
  | x :: p', y :: s' => N.eqb x y && startsWith s' p'
  | _ :: _, [] => false
  end.

Definition endsWith (s p : jstring) : bool := startsWith (rev s) (rev p).

(** [s.slice(1, -1)] *)
Definition slice_1_m1 (s : jstring) : jstring := removelast (tl s).

(** [s.substring(1)] *)
Definition substring_1 (s : jstring) : jstring := tl s.

(** ** Data model *)

Record FolderTag := mkFolderTag {
  oid : nat;          (* object identity, not a field of the source *)
  tag : jstring;
  inherited : bool
}.

Record FolderTags := mkFolderTags {
  path : jstring;
  tags : list FolderTag
}.

Record FolderTagsSettings := mkSettings {
  folderTags : list FolderTags
}.

Definition DEFAULT_SETTINGS : FolderTagsSettings := {| folderTags := [] |}.

(** Reference equality of two objects. *)
Definition same_object (a b : FolderTag) : bool := Nat.eqb (oid a) (oid b).

Definition FolderTag_eqb (a b : FolderTag) : bool :=
  Nat.eqb (oid a) (oid b) && str_eqb (tag a) (tag b)
  && Bool.eqb (inherited a) (inherited b).

(** *** Allocation of fresh objects *)

Definition Alloc (A : Type) : Type := nat -> A * nat.

Definition ret {A} (a : A) : Alloc A := fun n => (a, n).

Definition bind {A B} (m : Alloc A) (k : A -> Alloc B) : Alloc B :=
  fun n => let (a, n') := m n in k a n'.

Notation "x <- m ;; k" := (bind m (fun x => k))
  (at level 61, m at next level, right associativity).

(** The object literal [{ tag: t.tag, inherited: true }]. *)
Definition as_inherited (t : FolderTag) : Alloc FolderTag :=
  fun n => ({| oid := n; tag := tag t; inherited := true |}, S n).

(** [l.map(f)] for an allocating callback. *)
Fixpoint mapA {A B} (f : A -> Alloc B) (l : list A) : Alloc (list B) :=
  match l with
  | [] => ret []
  | x :: r => y <- f x ;; ys <- mapA f r ;; ret (y :: ys)
  end.

(** *** Sets

    A [Set] in insertion order; [same] is the SameValueZero comparison of
    its members. *)
Section JSSet.
Variable A : Type.
Variable same : A -> A -> bool.

Definition Set_add (s : list A) (x : A) : list A :=
  if existsb (same x) s then s else s ++ [x].

(** [new Set(l)], and [Array.from] of it. *)
Definition new_Set (l : list A) : list A := fold_left Set_add l [].
End JSSet.

Arguments Set_add {A} same s x.
Arguments new_Set {A} same l.

(** ** Tag resolver *)

(** [settings.folderTags.find((ft) => ft.path === p)] *)
Definition find_record (st : FolderTagsSettings) (p : jstring) : option FolderTags :=
  find (fun ft => str_eqb (path ft) p) (folderTags st).

(** One turn of the loop of [getInheritedTags]: the new [currentPath]. *)
Definition extend_path (currentPath part : jstring) : jstring :=
  (if truthy currentPath then currentPath ++ [SLASH] else currentPath) ++ part.

Fixpoint inherit_loop (st : FolderTagsSettings) (pathParts : list jstring)
    (currentPath : jstring) (inheritedTags : list FolderTag)
    : Alloc (list FolderTag) :=
  match pathParts with
  | [] => ret inheritedTags
  | part :: rest =>
      let currentPath := extend_path currentPath part in
      match find_record st currentPath with
      | Some folderTag =>
          a <- mapA as_inherited inheritedTags ;;
          b <- mapA as_inherited (tags folderTag) ;;
          inherit_loop st rest currentPath (a ++ b)
      | None => inherit_loop st rest currentPath inheritedTags
      end
  end.

Definition getInheritedTags (st : FolderTagsSettings) (p : jstring)
    : Alloc (list FolderTag) :=
  let pathParts := removelast (split SLASH p) in   (* split, then pop *)
  inherit_loop st pathParts [] [].

Definition direct_tags (st : FolderTagsSettings) (p : jstring) : list FolderTag :=
  match find_record st p with
  | Some folderTag => tags folderTag
  | None => []
  end.

Definition getFolderTags (st : FolderTagsSettings) (folderPath : jstring)
    : Alloc (list FolderTag) :=
  let directTags := direct_tags st folderPath in
  parentTags <- getInheritedTags st folderPath ;;
  ret (new_Set same_object (directTags ++ parentTags)).

(** [saveFolderTags] without the persistence call. *)
Fixpoint replace_tags (p : jstring) (ts : list FolderTag) (l : list FolderTags)
    : option (list FolderTags) :=
  match l with
  | [] => None
  | ft :: r =>
      if str_eqb (path ft) p then Some ({| path := path ft; tags := ts |} :: r)
      else option_map (cons ft) (replace_tags p ts r)
  end.

Definition saveFolderTags (st : FolderTagsSettings) (folderPath : jstring)
    (ts : list FolderTag) : FolderTagsSettings :=
  match replace_tags folderPath ts (folderTags st) with
  | Some l => {| folderTags := l |}
  | None => {| folderTags := folderTags st ++ [{| path := folderPath; tags := ts |}] |}
  end.

(** All objects reachable from the settings. *)
Definition stored_tags (st : FolderTagsSettings) : list FolderTag :=
  flat_map tags (folderTags st).

(** The store is well formed below [next]: every stored object was allocated
    before [next], and one identity names one object. *)
Definition heap_ok (st : FolderTagsSettings) (next : nat) : bool :=
  forallb (fun t =>
    Nat.ltb (oid t) next
    && forallb (fun u => implb (same_object t u) (FolderTag_eqb t u)) (stored_tags st))
    (stored_tags st).

(** ** Minimal frontmatter codec *)

(** What the plain object built by [parseYaml] holds: a string, or an array.
    An array parsed from text holds strings; [addTagsToFileContent] spreads a
    [Set<FolderTag>] into the array it stores, hence the second constructor. *)
Inductive elem :=
| EStr (s : jstring)
| EObj (t : FolderTag).

Inductive value :=
| VStr (s : jstring)
| VArr (l : list elem).

(** Own properties, in creation order. *)
Definition object := list (jstring * value).

Fixpoint obj_get (o : object) (k : jstring) : option value :=
  match o with
  | [] => None
  | (k', v) :: r => if str_eqb k' k then Some v else obj_get r k
  end.

(** [o[k] = v] on an own data property: an existing key keeps its place. *)
Fixpoint obj_set (o : object) (k : jstring) (v : value) : object :=
  match o with
  | [] => [(k, v)]
  | (k', v') :: r =>
      if str_eqb k' k then (k', v) :: r else (k', v') :: obj_set r k v
  end.

(** [delete o[k]] *)
Definition obj_delete (o : object) (k : jstring) : object :=
  filter (fun kv => negb (str_eqb (fst kv) k)) o.

(** [result[key] = value] in [parseYaml], where [key] is text of the file.
    The key [__proto__] reaches the accessor of [Object.prototype] and never
    creates an own property; no prototype it can install has a [tags]
    property, so own properties are all the code observes. *)
Definition obj_assign (o : object) (k : jstring) (v : value) : object :=
  if str_eqb k (lit "__proto__") then o else obj_set o k v.

Definition is_digit (c : char) : bool := ((48 <=? c) && (c <=? 57))%N.

Fixpoint digits_val (acc : N) (s : jstring) : option N :=
  match s with
  | [] => Some acc
  | c :: r => if is_digit c then digits_val (acc * 10 + (c - 48))%N r else None
  end.

(** A property key that is an array index: a canonical numeric string below
    [2^32 - 1].  Such keys are enumerated first, in ascending order. *)
Definition array_index (k : jstring) : option N :=
  match k with
  | [] => None
  | c :: r =>
      if N.eqb c 48 && truthy r then None
      else match digits_val 0 k with
           | Some n => if (n <=? 4294967294)%N then Some n else None
           | None => None
           end
  end.

Fixpoint insert_by_index (e : N * (jstring * value)) (l : list (N * (jstring * value)))
    : list (N * (jstring * value)) :=
  match l with
  | [] => [e]
  | x :: r => if (fst e <=? fst x)%N then e :: l else x :: insert_by_index e r
  end.

Fixpoint index_entries (o : object) : list (N * (jstring * value)) :=
  match o with
  | [] => []
  | kv :: r =>
      match array_index (fst kv) with
      | Some n => insert_by_index (n, kv) (index_entries r)
      | None => index_entries r
      end
  end.

Definition named_entries (o : object) : object :=
  filter (fun kv => match array_index (fst kv) with Some _ => false | None => true end) o.

(** [Object.entries(o)] *)
Definition entries (o : object) : object :=
  map snd (index_entries o) ++ named_entries o.

Definition is_nil {A} (l : list A) : bool :=
  match l with [] => true | _ :: _ => false end.

(** The body of the loop of [parseYaml]. *)
Definition parse_line (result : object) (line : jstring) : object :=
  match map trim (split COLON line) with
  | [] => result
  | key :: values =>
      if truthy key && negb (is_nil values) then
        let value := trim (join [COLON] values) in
        if startsWith value (lit "[") && endsWith value (lit "]") then
          obj_assign result key
            (VArr (map (fun s => EStr (trim s)) (split COMMA (slice_1_m1 value))))
        else obj_assign result key (VStr value)
      else result
  end.

(** [parseYaml]: nothing in the guarded block throws on a string, so the
    handler that returns the empty object is never entered. *)
Definition parseYaml (yaml : jstring) : object :=
  fold_left parse_line (split LF yaml) [].

(** An array element under [join]: a string as it is, an object through
    [Object.prototype.toString]. *)
Definition show_elem (e : elem) : jstring :=
  match e with
  | EStr s => s
  | EObj _ => lit "[object Object]"
  end.

Definition stringify_entry (kv : jstring * value) : jstring :=
  match snd kv with
  | VArr l => fst kv ++ lit ": [" ++ join (lit ", ") (map show_elem l) ++ lit "]"
  | VStr s => fst kv ++ lit ": " ++ s
  end.

Definition stringifyYaml (obj : object) : jstring :=
  join [LF] (map stringify_entry (entries obj)).

(** ** The two patterns *)

Fixpoint strip_prefix (p s : jstring) : option jstring :=
  match p, s with
  | [], _ => Some s
  | x :: p', y :: s' => if N.eqb x y then strip_prefix p' s' else None
  | _ :: _, [] => None
  end.

(** The lazy group followed by the closing delimiter: the text up to the
    first occurrence of a line feed and three dashes, and the text after it. *)
Fixpoint find_close (s : jstring) : option (jstring * jstring) :=
  match strip_prefix (lit "\n---") s with
  | Some rest => Some ([], rest)
  | None =>
      match s with
      | [] => None
      | c :: r =>
          match find_close r with
          | Some (b, rest) => Some (c :: b, rest)
          | None => None
          end
      end
  end.

(** [content.match(frontmatterRegex)] for [/^---\n([\s\S]*?)\n---/]:
    group 1 and the text that follows the match (the match starts at 0). *)
Definition frontmatter_match (content : jstring) : option (jstring * jstring) :=
  match strip_prefix (lit "---\n") content with
  | Some s => find_close s
  | None => None
  end.

Definition digit_of (c : char) : nat := N.to_nat (c - 48).

(** The capture [$n] of a replacement pattern, [n] counted from 1. *)
Definition capture (captures : list jstring) (n : nat) : option jstring :=
  match n with
  | O => None
  | S k => nth_error captures k
  end.

(** GetSubstitution: the replacement text of [String.prototype.replace] for
    a pattern without named groups. *)
Fixpoint getSubstitution (matched before after : jstring) (captures : list jstring)
    (template : jstring) : jstring :=
  let go := getSubstitution matched before after captures in
  match template with
  | [] => []
  | c :: r =>
      if negb (N.eqb c DOLLAR) then c :: go r
      else
        match r with
        | [] => [DOLLAR]
        | d :: r1 =>
            if N.eqb d DOLLAR then DOLLAR :: go r1
            else if N.eqb d 38 then matched ++ go r1
            else if N.eqb d 96 then before ++ go r1
            else if N.eqb d 39 then after ++ go r1
            else if is_digit d then
              let one :=
                match capture captures (digit_of d) with
                | Some g => g ++ go r1
                | None => DOLLAR :: d :: go r1
                end in
              match r1 with
              | d2 :: r2 =>
                  if is_digit d2 then
                    let nn := 10 * digit_of d + digit_of d2 in
                    if Nat.ltb (length captures) nn then one
                    else match capture captures nn with
                         | Some g => g ++ go r2
                         | None => DOLLAR :: d :: d2 :: go r2
                         end
                  else one
              | [] => one
              end
            else DOLLAR :: go r
        end
  end.

(** [content.replace(frontmatterRegex, template)] *)
Definition replace_frontmatter (content template : jstring) : jstring :=
  match frontmatter_match content with
  | Some (block, after) =>
      getSubstitution (lit "---\n" ++ block ++ lit "\n---") [] after [block] template
      ++ after
  | None => content
  end.

(** Characters with a meaning in a pattern.  [removeTagsFromFileContent]
    pastes tag names into a pattern as they are; the embedding covers the
    names that are free of these characters and stand for themselves. *)
Definition regex_meta (c : char) : bool :=
  existsb (N.eqb c) (lit "\^$.|?*+()[]{}").

Definition literal_name (t : jstring) : bool := forallb (fun c => negb (regex_meta c)) t.

(** [\b] between the last character matched and the next character. *)
Definition word_boundary (prev : char) (next : option char) : bool :=
  xorb (is_word prev) (match next with Some c => is_word c | None => false end).

(** The group [(#t1|#t2|...)\b] at [s]: the alternatives in order, the
    first that is a prefix of [s] and ends at a word boundary; its length. *)
Fixpoint match_alt (alts : list jstring) (s : jstring) : option nat :=
  match alts with
  | [] => None
  | a :: r =>
      match strip_prefix a s with
      | Some rest =>
          if word_boundary (last a HASH) (hd_error rest) then Some (length a)
          else match_alt r s
      | None => match_alt r s
      end
  end.

Fixpoint count_space (s : jstring) : nat :=
  match s with
  | c :: r => if is_space c then S (count_space r) else 0
  | [] => 0
  end.

(** [\s*(#t1|...)\b] at [s].  Every alternative starts with [#], which is
    not white space, so giving back white space never helps: the greedy run
    is the only candidate. *)
Definition match_here (alts : list jstring) (s : jstring) : option nat :=
  let n := count_space s in
  match match_alt alts (skipn n s) with
  | Some k => Some (n + k)
  | None => None
  end.

(** [s.replace(tagRegex, " ")] with the global flag: leftmost matches, left
    to right; [skip] counts the characters of the current match still to drop. *)
Fixpoint replace_tag_matches (alts : list jstring) (skip : nat) (s : jstring) : jstring :=
  match s with
  | [] => []
  | c :: r =>
      match skip with
      | S k => replace_tag_matches alts k r
      | O =>
          match match_here alts s with
          | Some (S k) => SPACE :: replace_tag_matches alts k r
          | _ => c :: replace_tag_matches alts 0 r
          end
      end
  end.

(** ** Content patcher *)

(** The part of [CachedMetadata] the code reads: whether [frontmatter] is
    there, and the [tag] of each entry of [tags] (with its [#]). *)
Record CachedMetadata := mkMetadata {
  frontmatter : bool;
  md_tags : option (list jstring)
}.

Definition has_frontmatter (metadata : option CachedMetadata) : bool :=
  match metadata with Some m => frontmatter m | None => false end.

(** What a call did to the file. *)
Inductive outcome :=
| NoWrite
| Write (newContent : jstring).

(** SameValueZero on array elements. *)
Definition same_elem (a b : elem) : bool :=
  match a, b with
  | EStr x, EStr y => str_eqb x y
  | EObj x, EObj y => same_object x y
  | _, _ => false
  end.

(** [yaml.tags || []], then [Array.isArray(x) ? x : [x]]. *)
Definition tags_or_empty (yaml : object) : list elem :=
  match obj_get yaml (lit "tags") with
  | Some (VArr l) => l
  | Some (VStr s) => if truthy s then [EStr s] else []
  | None => []
  end.

Definition hashtag (t : FolderTag) : jstring := HASH :: tag t.

(** [newTags] is the [Set] argument in iteration order. *)
Definition addTagsToFileContent (content : jstring) (metadata : option CachedMetadata)
    (newTags : list FolderTag) : outcome :=
  if is_nil newTags then NoWrite else
  let existingTags :=
    match metadata with
    | Some m =>
        match md_tags m with
        | Some l => new_Set str_eqb (map substring_1 l)
        | None => []
        end
    | None => []
    end in
  let tagsToAdd :=
    filter (fun t => negb (existsb (str_eqb (tag t)) existingTags)) newTags in
  if is_nil tagsToAdd then NoWrite else
  if has_frontmatter metadata then
    match frontmatter_match content with
    | Some (block, _) =>
        let yaml := parseYaml block in
        let existingTags := tags_or_empty yaml in
        let allTags := new_Set same_elem (existingTags ++ map EObj tagsToAdd) in
        let yaml := obj_set yaml (lit "tags") (VArr allTags) in
        let newFrontmatter := stringifyYaml yaml in
        Write (replace_frontmatter content (lit "---\n" ++ newFrontmatter ++ lit "---"))
    | None => NoWrite
    end
  else
    let tagString := join (lit " ") (map hashtag tagsToAdd) in
    Write (trimEnd content ++ lit "\n\n" ++ tagString).

(** The frontmatter stage of [removeTagsFromFileContent]. *)
Definition remove_from_frontmatter (content : jstring) (metadata : option CachedMetadata)
    (tagsForRemoval : list FolderTag) : jstring :=
  if has_frontmatter metadata then
    match frontmatter_match content with
    | Some (block, _) =>
        let yaml := parseYaml block in
        let present :=
          match obj_get yaml (lit "tags") with
          | Some (VArr l) => Some l
          | Some (VStr s) => if truthy s then Some [EStr s] else None
          | None => None
          end in
        match present with
        | Some existingTags =>
            let kept :=
              filter (fun e =>
                negb (existsb (fun t => str_eqb (tag t) (show_elem e)) tagsForRemoval))
                existingTags in
            let yaml :=
              if is_nil kept then obj_delete yaml (lit "tags")
              else obj_set yaml (lit "tags") (VArr kept) in
            let newFrontmatter := stringifyYaml yaml in
            replace_frontmatter content (lit "---\n" ++ newFrontmatter ++ lit "---")
        | None => content
        end
    | None => content
    end
  else content.

(** [removeTagsFromFileContent]; [None] when a tag name is outside the
    names whose pattern is modelled (see [regex_meta]). *)
Definition removeTagsFromFileContent (content : jstring) (metadata : option CachedMetadata)
    (tagsForRemoval : list FolderTag) : option outcome :=
  if is_nil tagsForRemoval then Some NoWrite else
  let newContent := remove_from_frontmatter content metadata tagsForRemoval in
  let alts := map hashtag tagsForRemoval in
  let tagsToRemovePattern := join (lit "|") alts in
  if negb (forallb (fun t => literal_name (tag t)) tagsForRemoval) then None else
  let newContent :=
    if truthy tagsToRemovePattern then replace_tag_matches alts 0 newContent
    else newContent in
  if negb (str_eqb newContent content) then Some (Write newContent)
  else Some NoWrite.

(** ** Folder tag edit *)

(** A call the submit handler of [addTagsToFolder] makes on a file. *)
Inductive call :=
| RemoveCall (file : jstring) (tagsForRemoval : list FolderTag)
| AddCall (file : jstring) (newTags : list FolderTag).

(** The tags shown in the modal:
    [new Array(...new Set([...inheritedTags, ...currentTags]))]. *)
Definition modal_tags (st : FolderTagsSettings) (folderPath : jstring)
    : Alloc (list FolderTag) :=
  let currentTags := direct_tags st folderPath in
  inheritedTags <- getInheritedTags st folderPath ;;
  ret (new_Set same_object (inheritedTags ++ currentTags)).

(** [removedTags]: the prior direct tags without a submitted entry of the
    same [tag] and the same [inherited]. *)
Definition removedTags_of (currentTags newTags : list FolderTag) : list FolderTag :=
  new_Set same_object
    (filter (fun tg =>
       negb (existsb (fun t => str_eqb (tag t) (tag tg)
                               && Bool.eqb (inherited t) (inherited tg)) newTags))
       currentTags).

(** [addedTags]: [new Set(newTags)]. *)
Definition addedTags_of (newTags : list FolderTag) : list FolderTag :=
  new_Set same_object newTags.

(** [vault.getFiles().filter((file) => file.path.startsWith(folder.path))],
    a file being its path. *)
Definition files_of_folder (folderPath : jstring) (allFiles : list jstring) : list jstring :=
  filter (fun file => startsWith file folderPath) allFiles.

(** The loop over the files: which patcher is called, on which file, with
    which set. *)
Definition file_calls (removedTags addedTags : list FolderTag) (file : jstring) : list call :=
  (if Nat.ltb 0 (length removedTags) then [RemoveCall file removedTags] else [])
  ++ (if Nat.ltb 0 (length addedTags) then [AddCall file addedTags] else []).

(** The submit handler of [addTagsToFolder], called with [newTags]: the
    settings it saves and the calls it makes.  [currentTags] is the array
    read from the settings when the command started. *)
Definition addTagsToFolder (st : FolderTagsSettings) (folderPath : jstring)
    (allFiles : list jstring) (newTags : list FolderTag)
    : FolderTagsSettings * list call :=
  let currentTags := direct_tags st folderPath in
  let removedTags := removedTags_of currentTags newTags in
  let st' := saveFolderTags st folderPath newTags in
  let addedTags := addedTags_of newTags in
  let files := files_of_folder folderPath allFiles in
  (st', flat_map (file_calls removedTags addedTags) files).

(** ** The revision with string tags

    [src/main.ts] holds the plugin with a tag as a string: there is no
    inherited flag and no pop in [getInheritedTags], the tags of the
    frontmatter that the cache reports count as existing, and the inline
    tags are read with [Object.keys].  The codec and the two patterns are
    the same code. *)
Module StringTags.

Record FolderTag := mkFolderTag {
  path : jstring;
  tags : list jstring
}.

Record FolderTagsSettings := mkSettings {
  folderTags : list FolderTag
}.

Definition find_record (st : FolderTagsSettings) (p : jstring) : option FolderTag :=
  find (fun ft => str_eqb (path ft) p) (folderTags st).

Fixpoint inherit_loop (st : FolderTagsSettings) (pathParts : list jstring)
    (currentPath : jstring) (inheritedTags : list jstring) : list jstring :=
  match pathParts with
  | [] => inheritedTags
  | part :: rest =>
      let currentPath := extend_path currentPath part in
      match find_record st currentPath with
      | Some folderTag => inherit_loop st rest currentPath (inheritedTags ++ tags folderTag)
      | None => inherit_loop st rest currentPath inheritedTags
      end
  end.

Definition getInheritedTags (st : FolderTagsSettings) (p : jstring) : list jstring :=
  inherit_loop st (split SLASH p) [] [].

Definition getFolderTags (st : FolderTagsSettings) (folderPath : jstring) : list jstring :=
  let directTags :=
    match find_record st folderPath with
    | Some folderTag => tags folderTag
    | None => []
    end in
  new_Set str_eqb (directTags ++ getInheritedTags st folderPath).

(** [metadata.frontmatter.tags]: an array of strings or one string. *)
Inductive fm_tags :=
| FmList (l : list jstring)
| FmText (s : jstring).

(** [frontmatter] is [None] when the cache has no frontmatter for the file,
    and holds the [tags] field otherwise; [md_tags] is the array [tags]. *)
Record CachedMetadata := mkMetadata {
  frontmatter : option (option fm_tags);
  md_tags : option (list jstring)
}.

Definition has_frontmatter (metadata : option CachedMetadata) : bool :=
  match metadata with
  | Some m => match frontmatter m with Some _ => true | None => false end
  | None => false
  end.

(** The decimal numeral of an index. *)
Definition index_key (i : nat) : jstring :=
  map N_of_ascii (list_ascii_of_string (NilZero.string_of_uint (Nat.to_uint i))).

(** [Object.keys(a)] of an array: its indices. *)
Definition array_keys {A} (a : list A) : list jstring :=
  map index_key (seq 0 (length a)).

(** The strings added to [existingTags], in order. *)
Definition existing_names (metadata : option CachedMetadata) : list jstring :=
  match metadata with
  | Some m =>
      match frontmatter m with
      | Some (Some (FmList l)) => l
      | Some (Some (FmText s)) => if truthy s then [s] else []
      | _ => []
      end
      ++ match md_tags m with
         | Some a => map substring_1 (array_keys a)
         | None => []
         end
  | None => []
  end.

Definition addTagsToFileContent (content : jstring) (metadata : option CachedMetadata)
    (newTags : list jstring) : outcome :=
  if is_nil newTags then NoWrite else
  let existingTags := new_Set str_eqb (existing_names metadata) in
  let tagsToAdd := filter (fun t => negb (existsb (str_eqb t) existingTags)) newTags in
  if is_nil tagsToAdd then NoWrite else
  if has_frontmatter metadata then
    match frontmatter_match content with
    | Some (block, _) =>
        let yaml := parseYaml block in
        let existingTags := tags_or_empty yaml in
        let allTags := new_Set same_elem (existingTags ++ map EStr newTags) in
        let yaml := obj_set yaml (lit "tags") (VArr allTags) in
        let newFrontmatter := stringifyYaml yaml in
        Write (replace_frontmatter content (lit "---\n" ++ newFrontmatter ++ lit "---"))
    | None => NoWrite
    end
  else
    let tagString := join (lit " ") (map (cons HASH) newTags) in
    Write (trimEnd content ++ lit "\n\n" ++ tagString).

Definition remove_from_frontmatter (content : jstring) (metadata : option CachedMetadata)
    (tagsForRemoval : list jstring) : jstring :=
  if has_frontmatter metadata then
    match frontmatter_match content with
    | Some (block, _) =>
        let yaml := parseYaml block in
        let present :=
          match obj_get yaml (lit "tags") with
          | Some (VArr l) => Some l
          | Some (VStr s) => if truthy s then Some [EStr s] else None
          | None => None
          end in
        match present with
        | Some existingTags =>
            let kept :=
              filter (fun e =>
                match e with
                | EStr s => negb (existsb (str_eqb s) tagsForRemoval)
                | EObj _ => true
                end) existingTags in
            let yaml :=
              if is_nil kept then obj_delete yaml (lit "tags")
              else obj_set yaml (lit "tags") (VArr kept) in
            let newFrontmatter := stringifyYaml yaml in
            replace_frontmatter content (lit "---\n" ++ newFrontmatter ++ lit "---")
        | None => content
        end
    | None => content
    end
  else content.

Definition removeTagsFromFileContent (content : jstring) (metadata : option CachedMetadata)
    (tagsForRemoval : list jstring) : option outcome :=
  if is_nil tagsForRemoval then Some NoWrite else
  let newContent := remove_from_frontmatter content metadata tagsForRemoval in
  let alts := map (cons HASH) tagsForRemoval in
  let tagsToRemovePattern := join (lit "|") alts in
  if negb (forallb literal_name tagsForRemoval) then None else
  let newContent :=
    if truthy tagsToRemovePattern then replace_tag_matches alts 0 newContent
    else newContent in
  if negb (str_eqb newContent content) then Some (Write newContent)
  else Some NoWrite.

Inductive call :=
| RemoveCall (file : jstring) (tagsForRemoval : list jstring)
| AddCall (file : jstring) (newTags : list jstring).

Definition file_calls (removedTags addedTags : list jstring) (file : jstring) : list call :=
  (if Nat.ltb 0 (length removedTags) then [RemoveCall file removedTags] else [])
  ++ (if Nat.ltb 0 (length addedTags) then [AddCall file addedTags] else []).

(** The calls of the submit handler of [addTagsToFolder]; [existingTags]
    is [getFolderTags(folder.path)], read when the command started. *)
Definition addTagsToFolder (st : FolderTagsSettings) (folderPath : jstring)
    (allFiles : list jstring) (newTags : list jstring) : list call :=
  let existingTags := getFolderTags st folderPath in
  let removedTags :=
    new_Set str_eqb
      (filter (fun t => negb (existsb (str_eqb t) newTags)) existingTags) in
  let addedTags :=
    new_Set str_eqb
      (filter (fun t => negb (existsb (str_eqb t) existingTags)) newTags) in
  flat_map (file_calls removedTags addedTags) (files_of_folder folderPath allFiles).

End StringTags.

(** ** Notions the properties are stated with *)

(** The value of [currentPath] after the loop has gone through [parts]. *)
Definition walk (cur : jstring) (parts : list jstring) : jstring :=
  fold_left extend_path parts cur.

(** The values [currentPath] takes, one per turn. *)
Fixpoint visited (cur : jstring) (parts : list jstring) : list jstring :=
  match parts with
  | [] => []
  | p :: r => extend_path cur p :: visited (extend_path cur p) r
  end.

(** The objects a call of [getInheritedTags] has made so far: all marked
    inherited, identities pairwise distinct and in the range [lo, hi). *)
Definition fresh_list (lo hi : nat) (l : list FolderTag) : Prop :=
  Forall (fun e => inherited e = true /\ lo <= oid e < hi) l
  /\ NoDup (map oid l).

(** [A] is a strict ancestor of [C]: [C] is [A], a slash, and more.  Paths
    are relative to the vault, so an ancestor does not begin with a slash
    (the root is the empty path). *)
Definition is_ancestor (A C : jstring) : Prop :=
  hd_error A <> Some SLASH /\ exists rest, C = A ++ SLASH :: rest.

(** Three folders in a chain, each with one direct tag. *)
Definition chain_settings : FolderTagsSettings :=
  {| folderTags :=
       [ {| path := lit "a"; tags := [mkFolderTag 0 (lit "top") false] |};
         {| path := lit "a/b"; tags := [mkFolderTag 1 (lit "mid") false] |};
         {| path := lit "a/b/c"; tags := [mkFolderTag 2 (lit "leaf") false] |} ] |}.

(** The tag [x] on a folder and on its parent. *)
Definition shadow_settings : FolderTagsSettings :=
  {| folderTags :=
       [ {| path := lit "a"; tags := [mkFolderTag 0 (lit "x") false] |};
         {| path := lit "a/b"; tags := [mkFolderTag 1 (lit "x") false] |} ] |}.

(** [s.includes(sub)] *)
Fixpoint includes (s sub : jstring) : bool :=
  startsWith s sub || match s with [] => false | _ :: r => includes r sub end.

(** A cache entry that reports frontmatter and no inline tag. *)
Definition with_frontmatter : option CachedMetadata :=
  Some {| frontmatter := true; md_tags := None |}.

(** Where [addTagsToFileContent] puts the tags that are left after the
    tags the cache lists have been taken out. *)
Definition place_tags (content : jstring) (fm : bool) (tagsToAdd : list FolderTag)
    : outcome :=
  if fm then
    match frontmatter_match content with
    | Some (block, _) =>
        Write (replace_frontmatter content
                 (lit "---\n"
                  ++ stringifyYaml
                       (obj_set (parseYaml block) (lit "tags")
                          (VArr (new_Set same_elem
                                   (tags_or_empty (parseYaml block) ++ map EObj tagsToAdd))))
                  ++ lit "---"))
    | None => NoWrite
    end
  else Write (trimEnd content ++ lit "\n\n" ++ join (lit " ") (map hashtag tagsToAdd)).

(** The tag names the cache lists for the file. *)
Definition cached_names (metadata : option CachedMetadata) : list jstring :=
  match metadata with
  | Some m =>
      match md_tags m with
      | Some l => new_Set str_eqb (map substring_1 l)
      | None => []
      end
  | None => []
  end.

(** A cache that is up to date with the text lists, as tags of the file,
    only tags whose name occurs in the text. *)
Definition cache_lists_text_tags (metadata : option CachedMetadata) (content : jstring)
    : bool :=
  match metadata with
  | Some m =>
      match md_tags m with
      | Some l => forallb (fun t => includes content (substring_1 t)) l
      | None => true
      end
  | None => true
  end.

(** A note with frontmatter and a rule in its body, before and after the
    tag [work] is added to it. *)
Definition ruled_note : jstring := lit "---\ntitle: T\n---\nBody\n---\nmore".

Definition ruled_note_once : jstring :=
  lit "---\ntitle: T\ntags: [[object Object]]---\nBody\n---\nmore".

(** What the modal hands to the submit handler:
    [this.tags.filter((t) => !t.inherited)]. *)
Definition submitted (modalTags : list FolderTag) : list FolderTag :=
  filter (fun t => negb (inherited t)) modalTags.

(** The two sets in the words of the specification: prior direct tags whose
    name is not submitted, and submitted tags whose name is not a prior
    direct tag. *)
Definition spec_removed (currentTags newTags : list FolderTag) : list FolderTag :=
  filter (fun t => negb (existsb (fun u => str_eqb (tag u) (tag t)) newTags)) currentTags.


(** One folder, [f], with the direct tag [a]. *)
Definition one_folder : FolderTagsSettings :=
  {| folderTags := [ {| path := lit "f"; tags := [mkFolderTag 0 (lit "a") false] |} ] |}.

(** [c] occurs in [s]. *)
Definition has_char (c : char) (s : jstring) : bool := existsb (N.eqb c) s.

(** The key and the value [parseYaml] reads off a line. *)
Definition line_key (line : jstring) : jstring :=
  hd [] (map trim (split COLON line)).

Definition line_value (line : jstring) : jstring :=
  trim (join [COLON] (tl (map trim (split COLON line)))).

(** ** The settings tab, the modal and the create handler *)

(** The Remove button of the settings tab:
    [settings.folderTags.filter((ft) => ft.path !== folderTag.path)]. *)
Definition remove_record (st : FolderTagsSettings) (p : jstring) : FolderTagsSettings :=
  {| folderTags := filter (fun ft => negb (str_eqb (path ft) p)) (folderTags st) |}.

(** [this.tags.some((t) => t.tag === name)] *)
Definition has_name (l : list FolderTag) (name : jstring) : bool :=
  existsb (fun t => str_eqb (tag t) name) l.

(** The modal of [addTagsToFolder], whose [tags] array is a copy of its
    own.  The space key with [value] in the input: the trimmed text becomes
    a new direct tag unless it is empty or a tag of that name is there. *)
Definition modal_type (l : list FolderTag) (value : jstring) : Alloc (list FolderTag) :=
  let newTagStr := trim value in
  if truthy newTagStr && negb (has_name l newTagStr)
  then fun n => (l ++ [{| oid := n; tag := newTagStr; inherited := false |}], S n)
  else ret l.

(** The delete mark of the pill of [name]:
    [this.tags.filter((t) => t.tag !== folderTag.tag)]. *)
Definition modal_delete (l : list FolderTag) (name : jstring) : list FolderTag :=
  filter (fun t => negb (str_eqb (tag t) name)) l.

(** Save, or Enter with a modifier: what is left in the input is taken as
    one more tag, and the direct tags are handed to the submit handler. *)
Definition modal_submit (l : list FolderTag) (value : jstring) : Alloc (list FolderTag) :=
  l' <- modal_type l value ;;
  ret (submitted l').

(** What the user does before submitting. *)
Inductive modal_event :=
| TypeTag (value : jstring)
| DeleteTag (name : jstring).

Fixpoint modal_run (l : list FolderTag) (events : list modal_event)
    : Alloc (list FolderTag) :=
  match events with
  | [] => ret l
  | TypeTag value :: rest => l' <- modal_type l value ;; modal_run l' rest
  | DeleteTag name :: rest => modal_run (modal_delete l name) rest
  end.

(** The handler of the vault's [create] event for a file: [parent] is
    [file.parent?.path], the folder path is [parent || ""]. *)
Definition on_create (st : FolderTagsSettings) (parent : option jstring)
    (content : jstring) (metadata : option CachedMetadata) : Alloc outcome :=
  let folderPath :=
    match parent with
    | Some p => if truthy p then p else []
    | None => []
    end in
  resolved <- getFolderTags st folderPath ;;
  let inheritedTags := new_Set same_object resolved in
  ret (if Nat.ltb 0 (length inheritedTags)
       then addTagsToFileContent content metadata inheritedTags
       else NoWrite).

(** ** Objects the codec gives back as they were *)

(** Text that [trim] and the two splits leave alone. *)
Definition plain_text (s : jstring) : bool :=
  str_eqb (trim s) s && negb (has_char LF s) && negb (has_char COLON s).

Definition key_ok (k : jstring) : bool :=
  truthy k && plain_text k && negb (str_eqb k (lit "__proto__"))
  && match array_index k with Some _ => false | None => true end.

Definition scalar_ok (s : jstring) : bool :=
  plain_text s && negb (startsWith s (lit "[") && endsWith s (lit "]")).

Definition item_ok (e : elem) : bool :=
  match e with
  | EStr s => plain_text s && negb (has_char COMMA s)
  | EObj _ => false
  end.

Definition value_ok (v : value) : bool :=
  match v with
  | VStr s => scalar_ok s
  | VArr l => negb (is_nil l) && forallb item_ok l
  end.

(** Flat keys, each once; scalars that are not of the bracket shape;
    lists, not empty, of items without a comma. *)
Fixpoint codec_ok (o : object) : bool :=
  match o with
  | [] => true
  | kv :: r =>
      key_ok (fst kv) && value_ok (snd kv)
      && negb (existsb (fun kv' => str_eqb (fst kv') (fst kv)) r)
      && codec_ok r
  end.

(** Every occurrence of [a] in [s] is followed by a word character. *)
Fixpoint only_in_longer (a s : jstring) : bool :=
  match strip_prefix a s with
  | Some (w :: _) => is_word w
  | Some [] => false
  | None => true
  end
  && match s with
     | [] => true
     | _ :: r => only_in_longer a r
     end.

(** A list is set-like when no member stands, under [same], for a member
    before it: the arrays [new_Set] makes. *)
Definition set_like {A} (same : A -> A -> bool) (s : list A) : Prop :=
  forall s1 y s2, s = s1 ++ y :: s2 -> existsb (same y) s1 = false.

(** * Properties *)

(** ** Strings and paths *)

Lemma str_eqb_refl (s : jstring) : str_eqb s s = true.
Proof.
  induction s as [|c s IH]; simpl; [reflexivity|].
  rewrite N.eqb_refl; exact IH.
Qed.

Lemma str_eqb_eq (a b : jstring) : str_eqb a b = true <-> a = b.
Proof.
  split.
  - revert b; induction a as [|x a IH]; intros [|y b] H; simpl in H;
      try discriminate; [reflexivity|].
    apply andb_true_iff in H as [Hx Hab].
    apply N.eqb_eq in Hx; subst y; f_equal; auto.
  - intros ->; apply str_eqb_refl.
Qed.

Lemma split_not_nil (sep : char) (s : jstring) : split sep s <> [].
Proof.
  destruct s as [|c s]; simpl; [discriminate|].
  destruct (N.eqb c sep); [discriminate|].
  destruct (split sep s); discriminate.
Qed.

(** Splitting at a separator that is there splits the two sides apart. *)
Lemma split_app_sep (sep : char) (a b : jstring) :
  split sep (a ++ sep :: b) = split sep a ++ split sep b.
Proof.
  induction a as [|c a IH]; simpl.
  - rewrite N.eqb_refl; reflexivity.
  - destruct (N.eqb c sep); [rewrite IH; reflexivity|].
    rewrite IH.
    destruct (split sep a) as [|p ps] eqn:E; [|reflexivity].
    exfalso; exact (split_not_nil _ _ E).
Qed.

Lemma unsplit (sep : char) (s p : jstring) (ps : list jstring) :
  split sep s = p :: ps -> p ++ concat (map (cons sep) ps) = s.
Proof.
  revert p ps; induction s as [|c s IH]; simpl; intros p ps H.
  - injection H as <- <-; reflexivity.
  - destruct (N.eqb c sep) eqn:Ec.
    + injection H as <- <-.
      apply N.eqb_eq in Ec; subst c.
      destruct (split sep s) as [|q qs] eqn:E; [exfalso; exact (split_not_nil _ _ E)|].
      simpl; f_equal; apply IH; reflexivity.
    + destruct (split sep s) as [|q qs] eqn:E; [exfalso; exact (split_not_nil _ _ E)|].
      injection H as <- <-.
      simpl; f_equal; apply IH; reflexivity.
Qed.

Lemma walk_glued (cur : jstring) (ps : list jstring) :
  cur <> [] -> walk cur ps = cur ++ concat (map (cons SLASH) ps).
Proof.
  revert cur; induction ps as [|p ps IH]; intros cur Hcur; simpl.
  - rewrite app_nil_r; reflexivity.
  - unfold walk in *; simpl.
    assert (E : extend_path cur p = cur ++ SLASH :: p).
    { unfold extend_path; destruct cur; [congruence|]; simpl.
      rewrite <- app_assoc; reflexivity. }
    rewrite E, IH by (destruct cur; [congruence|discriminate]).
    rewrite <- app_assoc; reflexivity.
Qed.

(** A path that does not begin with a slash is rebuilt from its parts. *)
Lemma walk_split (A : jstring) :
  hd_error A <> Some SLASH -> walk [] (split SLASH A) = A.
Proof.
  destruct A as [|c A]; intros H; [reflexivity|].
  simpl in *.
  destruct (N.eqb c SLASH) eqn:Ec.
  - apply N.eqb_eq in Ec; congruence.
  - destruct (split SLASH A) as [|p ps] eqn:E; [exfalso; exact (split_not_nil _ _ E)|].
    change (walk [] ((c :: p) :: ps)) with (walk (c :: p) ps).
    rewrite walk_glued by discriminate.
    simpl; f_equal; apply (unsplit _ _ _ _ E).
Qed.

Lemma walk_visited (cur : jstring) (parts : list jstring) :
  parts <> [] -> In (walk cur parts) (visited cur parts).
Proof.
  revert cur; induction parts as [|p r IH]; intros cur H; [congruence|].
  destruct r as [|q r]; [left; reflexivity|].
  right; apply (IH (extend_path cur p)); discriminate.
Qed.

Lemma visited_app (cur : jstring) (l1 l2 : list jstring) (p : jstring) :
  In p (visited cur l1) -> In p (visited cur (l1 ++ l2)).
Proof.
  revert cur; induction l1 as [|q l1 IH]; intros cur; simpl; [tauto|].
  intros [H|H]; [left; exact H|right; apply IH; exact H].
Qed.

(** An ancestor [A] of [A/rest] is one of the paths [getInheritedTags]
    looks up. *)
Lemma ancestor_visited (A rest : jstring) :
  hd_error A <> Some SLASH ->
  In A (visited [] (removelast (split SLASH (A ++ SLASH :: rest)))).
Proof.
  intros H.
  rewrite split_app_sep, removelast_app by apply split_not_nil.
  apply visited_app.
  rewrite <- (walk_split A H) at 1.
  apply walk_visited, split_not_nil.
Qed.

(** ** Sets *)

Section JSSetFacts.
Context {A : Type} (same : A -> A -> bool).

Lemma Set_fold_keeps (l s : list A) (x : A) :
  In x s -> In x (fold_left (Set_add same) l s).
Proof.
  revert s; induction l as [|y l IH]; intros s H; simpl; [exact H|].
  apply IH; unfold Set_add.
  destruct (existsb (same y) s); [exact H|apply in_or_app; left; exact H].
Qed.

Lemma Set_fold_incl (l s : list A) (x : A) :
  In x (fold_left (Set_add same) l s) -> In x s \/ In x l.
Proof.
  revert s; induction l as [|y l IH]; intros s H; simpl in *; [left; exact H|].
  apply IH in H as [H|H]; [|right; right; exact H].
  unfold Set_add in H.
  destruct (existsb (same y) s); [left; exact H|].
  apply in_app_or in H as [H|[H|[]]]; [left; exact H|right; left; exact H].
Qed.

(** A member of the argument is in the set, or an earlier member stands
    for it. *)
Lemma Set_fold_complete (l s : list A) (x : A) :
  In x l ->
  exists y, In y (fold_left (Set_add same) l s) /\ (y = x \/ same x y = true).
Proof.
  revert s; induction l as [|z l IH]; intros s H; [destruct H|].
  destruct H as [->|H]; [|apply IH; exact H].
  simpl; unfold Set_add at 2.
  destruct (existsb (same x) s) eqn:E.
  - apply existsb_exists in E as (y & Hy & Hs).
    exists y; split; [apply Set_fold_keeps; exact Hy|right; exact Hs].
  - exists x; split; [|left; reflexivity].
    apply Set_fold_keeps, in_or_app; right; left; reflexivity.
Qed.

Lemma new_Set_incl (l : list A) (x : A) : In x (new_Set same l) -> In x l.
Proof.
  intros H; apply Set_fold_incl in H as [[]|H]; exact H.
Qed.

(** When [same] identifies only equal members of [l], the set has the
    members of [l]. *)
Lemma new_Set_In (l : list A) (x : A) :
  (forall y, In y l -> same x y = true -> y = x) ->
  In x l -> In x (new_Set same l).
Proof.
  intros Hsame H.
  destruct (Set_fold_complete l [] x H) as (y & Hy & [->|Hs]); [exact Hy|].
  rewrite <- (Hsame y (new_Set_incl _ _ Hy) Hs); exact Hy.
Qed.
End JSSetFacts.

(** ** Allocation *)

Lemma bind_run {A B} (m : Alloc A) (k : A -> Alloc B) (n : nat) :
  bind m k n = k (fst (m n)) (snd (m n)).
Proof. unfold bind; destruct (m n); reflexivity. Qed.

Lemma mapA_as_inherited (l : list FolderTag) (n : nat) :
  snd (mapA as_inherited l n) = n + length l
  /\ map tag (fst (mapA as_inherited l n)) = map tag l
  /\ map inherited (fst (mapA as_inherited l n)) = repeat true (length l)
  /\ map oid (fst (mapA as_inherited l n)) = seq n (length l).
Proof.
  revert n; induction l as [|t l IH]; intros n; simpl.
  - rewrite Nat.add_0_r; repeat split; reflexivity.
  - rewrite !bind_run; simpl.
    destruct (IH (S n)) as (H1 & H2 & H3 & H4).
    rewrite H1, H2, H3, H4; repeat split; lia.
Qed.

Lemma fresh_list_nil (lo hi : nat) : fresh_list lo hi [].
Proof. split; constructor. Qed.

Lemma in_map_tag (l l' : list FolderTag) (t : FolderTag) :
  map tag l' = map tag l -> In t l -> exists e, In e l' /\ tag e = tag t.
Proof.
  intros E H.
  apply (in_map tag) in H; rewrite <- E in H.
  apply in_map_iff in H as (e & He & Hin); exists e; split; assumption.
Qed.

(** Re-marking the accumulated list and the tags of one more ancestor. *)
Lemma remark_fresh (lo n : nat) (inh ts : list FolderTag) :
  lo <= n ->
  let a := mapA as_inherited inh n in
  let b := mapA as_inherited ts (snd a) in
  fresh_list lo (snd b) (fst a ++ fst b) /\ n <= snd b.
Proof.
  intros Hlo a b.
  destruct (mapA_as_inherited inh n) as (A1 & _ & A3 & A4).
  destruct (mapA_as_inherited ts (snd a)) as (B1 & _ & B3 & B4).
  fold a in A1, A3, A4; fold b in B1, B3, B4.
  assert (Hoid : map oid (fst a ++ fst b) = seq n (length inh + length ts)).
  { rewrite map_app, A4, B4, A1, seq_app; reflexivity. }
  assert (Hinh : map inherited (fst a ++ fst b) = repeat true (length inh + length ts)).
  { rewrite map_app, A3, B3, repeat_app; reflexivity. }
  split; [split|lia].
  - apply Forall_forall; intros e He; split.
    + apply (in_map inherited) in He; rewrite Hinh in He.
      apply repeat_spec in He; exact He.
    + apply (in_map oid) in He; rewrite Hoid in He.
      apply in_seq in He; lia.
  - rewrite Hoid; apply seq_NoDup.
Qed.

(** ** Tag resolver *)

Lemma inherit_loop_inv (st : FolderTagsSettings) (parts : list jstring) :
  forall (cur : jstring) (inh : list FolderTag) (lo n : nat),
    fresh_list lo n inh -> lo <= n ->
    let r := inherit_loop st parts cur inh n in
    fresh_list lo (snd r) (fst r)
    /\ (forall t, In t inh -> exists e, In e (fst r) /\ tag e = tag t)
    /\ (forall p rec t, In p (visited cur parts) -> find_record st p = Some rec ->
          In t (tags rec) -> exists e, In e (fst r) /\ tag e = tag t).
Proof.
  induction parts as [|part rest IH]; intros cur inh lo n Hf Hlo; simpl.
  - split; [exact Hf|split].
    + intros t Ht; exists t; split; [exact Ht|reflexivity].
    + intros p rec t [].
  - destruct (find_record st (extend_path cur part)) as [ft|] eqn:Efind.
    + rewrite !bind_run.
      set (a := mapA as_inherited inh n).
      set (b := mapA as_inherited (tags ft) (snd a)).
      destruct (remark_fresh lo n inh (tags ft) Hlo) as [Hf' Hn'].
      fold a b in Hf', Hn'.
      destruct (IH (extend_path cur part) (fst a ++ fst b) lo (snd b) Hf' ltac:(lia))
        as (I1 & I2 & I3).
      split; [exact I1|split].
      * intros t Ht.
        destruct (in_map_tag inh (fst a) t) as (e & He & Et);
          [apply mapA_as_inherited|exact Ht|].
        destruct (I2 e (in_or_app _ _ _ (or_introl He))) as (e' & He' & Et').
        exists e'; split; [exact He'|congruence].
      * intros p rec t [Hp|Hp] Hrec Ht.
        -- subst p; rewrite Efind in Hrec; injection Hrec as <-.
           destruct (in_map_tag (tags ft) (fst b) t) as (e & He & Et);
             [apply mapA_as_inherited|exact Ht|].
           destruct (I2 e (in_or_app _ _ _ (or_intror He))) as (e' & He' & Et').
           exists e'; split; [exact He'|congruence].
        -- exact (I3 p rec t Hp Hrec Ht).
    + destruct (IH (extend_path cur part) inh lo n Hf Hlo) as (I1 & I2 & I3).
      split; [exact I1|split; [exact I2|]].
      intros p rec t [Hp|Hp] Hrec Ht.
      * subst p; congruence.
      * exact (I3 p rec t Hp Hrec Ht).
Qed.

Lemma find_record_In (st : FolderTagsSettings) (p : jstring) (rec : FolderTags) :
  find_record st p = Some rec -> In rec (folderTags st) /\ path rec = p.
Proof.
  intros H; apply find_some in H as [H1 H2].
  split; [exact H1|apply str_eqb_eq; exact H2].
Qed.

Lemma direct_tags_stored (st : FolderTagsSettings) (p : jstring) (t : FolderTag) :
  In t (direct_tags st p) -> In t (stored_tags st).
Proof.
  unfold direct_tags, stored_tags.
  destruct (find_record st p) as [rec|] eqn:E; [|intros []].
  intros H; apply in_flat_map; exists rec; split; [|exact H].
  apply (find_record_In _ _ _ E).
Qed.

Lemma FolderTag_eqb_eq (a b : FolderTag) : FolderTag_eqb a b = true -> a = b.
Proof.
  destruct a as [i s x], b as [j u y]; unfold FolderTag_eqb; simpl; intros H.
  apply andb_true_iff in H as [H Hb]; apply andb_true_iff in H as [Hi Hs].
  apply Nat.eqb_eq in Hi; apply str_eqb_eq in Hs; apply eqb_prop in Hb.
  congruence.
Qed.

Lemma heap_ok_spec (st : FolderTagsSettings) (next : nat) :
  heap_ok st next = true ->
  forall t, In t (stored_tags st) ->
    oid t < next /\ (forall u, In u (stored_tags st) -> oid t = oid u -> u = t).
Proof.
  unfold heap_ok; intros H t Ht.
  rewrite forallb_forall in H; specialize (H t Ht).
  apply andb_true_iff in H as [Hlt Hall].
  split; [apply Nat.ltb_lt; exact Hlt|].
  intros u Hu E.
  rewrite forallb_forall in Hall; specialize (Hall u Hu).
  unfold same_object in Hall; rewrite (proj2 (Nat.eqb_eq _ _) E) in Hall.
  symmetry; apply FolderTag_eqb_eq; exact Hall.
Qed.

(** What [getFolderTags] returns holds every direct tag as it is stored and
    every object [getInheritedTags] made. *)
Lemma getFolderTags_members (st : FolderTagsSettings) (p : jstring) (next : nat) :
  heap_ok st next = true ->
  forall e,
    In e (direct_tags st p) \/ In e (fst (getInheritedTags st p next)) ->
    In e (fst (getFolderTags st p next)).
Proof.
  intros Hok e He.
  unfold getFolderTags; rewrite bind_run; simpl.
  set (parent := fst (getInheritedTags st p next)) in *.
  assert (Hfresh : fresh_list next (snd (getInheritedTags st p next)) parent).
  { apply (inherit_loop_inv st _ [] [] next next (fresh_list_nil _ _) (le_n _)). }
  destruct Hfresh as [Hall Hnd]; rewrite Forall_forall in Hall.
  apply new_Set_In; [|apply in_or_app; exact He].
  intros y Hy Hsame.
  apply Nat.eqb_eq in Hsame.
  apply in_app_or in Hy.
  destruct He as [He|He], Hy as [Hy|Hy].
  - apply direct_tags_stored in He, Hy.
    apply (proj2 (heap_ok_spec st next Hok e He) y Hy Hsame).
  - apply direct_tags_stored in He.
    destruct (heap_ok_spec st next Hok e He) as [Hlt _].
    destruct (Hall y Hy) as [_ Hge]; lia.
  - apply direct_tags_stored in Hy.
    destruct (heap_ok_spec st next Hok y Hy) as [Hlt _].
    destruct (Hall e He) as [_ Hge]; lia.
  - clear - Hnd He Hy Hsame.
    induction parent as [|z l IH]; [destruct He|].
    simpl in Hnd; inversion Hnd as [|? ? Hnotin Hnd']; subst.
    destruct He as [->|He], Hy as [->|Hy]; try reflexivity.
    + exfalso; apply Hnotin; rewrite Hsame; apply in_map; exact Hy.
    + exfalso; apply Hnotin; rewrite <- Hsame; apply in_map; exact He.
    + apply IH; assumption.
Qed.

Lemma is_ancestor_trans (A B C : jstring) :
  is_ancestor A B -> is_ancestor B C -> is_ancestor A C.
Proof.
  intros [HA (r1 & ->)] [_ (r2 & ->)]; split; [exact HA|].
  exists (r1 ++ SLASH :: r2); rewrite <- app_assoc; reflexivity.
Qed.

(** The tags of an ancestor that has a record come back marked inherited. *)
Lemma ancestor_tags_inherited (st : FolderTagsSettings) (A C : jstring)
    (recA : FolderTags) (next : nat) :
  heap_ok st next = true ->
  is_ancestor A C ->
  find_record st A = Some recA ->
  forall t, In t (tags recA) ->
    exists e, In e (fst (getFolderTags st C next))
              /\ tag e = tag t /\ inherited e = true.
Proof.
  intros Hok [HA (rest & ->)] Hrec t Ht.
  pose proof (inherit_loop_inv st (removelast (split SLASH (A ++ SLASH :: rest)))
                [] [] next next (fresh_list_nil _ _) (le_n _)) as (Hf & _ & Hv).
  destruct (Hv A recA t (ancestor_visited A rest HA) Hrec Ht) as (e & He & Et).
  exists e; split; [|split; [exact Et|]].
  - apply getFolderTags_members; [exact Hok|right; exact He].
  - destruct Hf as [Hall _]; rewrite Forall_forall in Hall.
    apply (Hall e He).
Qed.

(** C4.  Along a chain of folders [A], [B], [C], each a strict ancestor of
    the next and each with a record, [getFolderTags C] holds every tag of
    [A] and every tag of [B] marked inherited, and every direct tag of [C]
    (stored, as direct tags are, with [inherited = false]) marked direct. *)
Theorem getFolderTags_chain (st : FolderTagsSettings) (A B C : jstring)
    (recA recB recC : FolderTags) (next : nat) :
  heap_ok st next = true ->
  is_ancestor A B -> is_ancestor B C ->
  find_record st A = Some recA ->
  find_record st B = Some recB ->
  find_record st C = Some recC ->
  let res := fst (getFolderTags st C next) in
  (forall t, In t (tags recA) ->
     exists e, In e res /\ tag e = tag t /\ inherited e = true)
  /\ (forall t, In t (tags recB) ->
        exists e, In e res /\ tag e = tag t /\ inherited e = true)
  /\ (forall t, In t (tags recC) -> inherited t = false ->
        exists e, In e res /\ tag e = tag t /\ inherited e = false).
Proof.
  intros Hok HAB HBC HA HB HC res; subst res.
  split; [|split].
  - apply (ancestor_tags_inherited st A C recA next Hok
             (is_ancestor_trans A B C HAB HBC) HA).
  - apply (ancestor_tags_inherited st B C recB next Hok HBC HB).
  - intros t Ht Hdirect.
    exists t; split; [|split; [reflexivity|exact Hdirect]].
    apply getFolderTags_members; [exact Hok|left].
    unfold direct_tags; rewrite HC; exact Ht.
Qed.

(** The chain [a], [a/b], [a/b/c]. *)
Lemma getFolderTags_chain_witness :
  let res := fst (getFolderTags chain_settings (lit "a/b/c") 3) in
  (forall t, In t [mkFolderTag 0 (lit "top") false] ->
     exists e, In e res /\ tag e = tag t /\ inherited e = true)
  /\ (forall t, In t [mkFolderTag 1 (lit "mid") false] ->
        exists e, In e res /\ tag e = tag t /\ inherited e = true)
  /\ (forall t, In t [mkFolderTag 2 (lit "leaf") false] -> inherited t = false ->
        exists e, In e res /\ tag e = tag t /\ inherited e = false).
Proof.
  apply (getFolderTags_chain chain_settings (lit "a") (lit "a/b") (lit "a/b/c")
           {| path := lit "a"; tags := [mkFolderTag 0 (lit "top") false] |}
           {| path := lit "a/b"; tags := [mkFolderTag 1 (lit "mid") false] |}
           {| path := lit "a/b/c"; tags := [mkFolderTag 2 (lit "leaf") false] |} 3).
  - reflexivity.
  - split; [discriminate|exists (lit "b"); reflexivity].
  - split; [discriminate|exists (lit "c"); reflexivity].
  - reflexivity.
  - reflexivity.
  - reflexivity.
Defined.

(** The chain above, run: direct first, then the inherited tags of the
    ancestors from the top down. *)
Example getFolderTags_chain_run :
  fst (getFolderTags chain_settings (lit "a/b/c") 3)
  = [ mkFolderTag 2 (lit "leaf") false;
      mkFolderTag 4 (lit "top") true;
      mkFolderTag 5 (lit "mid") true ].
Proof. reflexivity. Qed.

(** C2, at an input where it fails.  The tag [x] is declared on [a] and on
    [a/b]; [getFolderTags] answers with two entries named [x], the direct
    one and the inherited one: the inherited entry is a new object, and the
    [Set] that is meant to remove duplicates compares objects by identity. *)
Theorem getFolderTags_same_name_twice :
  heap_ok shadow_settings 2 = true
  /\ fst (getFolderTags shadow_settings (lit "a/b") 2)
     = [ mkFolderTag 1 (lit "x") false; mkFolderTag 2 (lit "x") true ].
Proof. split; reflexivity. Qed.

(** The same in general: a tag stored as direct on a folder and declared
    on an ancestor too is answered twice, once direct and once inherited. *)
Lemma getFolderTags_shadowed_twice (st : FolderTagsSettings) (A C : jstring)
    (recA : FolderTags) (next : nat) (t u : FolderTag) :
  heap_ok st next = true ->
  is_ancestor A C ->
  find_record st A = Some recA ->
  In u (tags recA) ->
  In t (direct_tags st C) -> inherited t = false -> tag u = tag t ->
  exists d i,
    In d (fst (getFolderTags st C next)) /\ In i (fst (getFolderTags st C next))
    /\ tag d = tag t /\ tag i = tag t
    /\ inherited d = false /\ inherited i = true.
Proof.
  intros Hok Hanc Hrec Hu Ht Hdirect Hname.
  destruct (ancestor_tags_inherited st A C recA next Hok Hanc Hrec u Hu)
    as (i & Hi & Ei & Fi).
  exists t, i; repeat split; try assumption; try congruence.
  apply getFolderTags_members; [exact Hok|left; exact Ht].
Qed.

(** ** Content patcher *)

(** C1, at an input where it fails.  The block [tags: [a, b]] with [c]
    added is written as [tags: [a, b, [object Object]]]: the new members of
    the array are [FolderTag] objects, not their names.  The line feed
    before the closing dashes is not written either, so the block no longer
    matches the pattern, and removing [a] afterwards finds nothing to patch
    and writes nothing, whatever the cache reports. *)
Theorem roundtrip_add_then_remove :
  addTagsToFileContent (lit "---\ntags: [a, b]\n---\nBody") with_frontmatter
    [mkFolderTag 0 (lit "c") false]
  = Write (lit "---\ntags: [a, b, [object Object]]---\nBody")
  /\ forall metadata,
       removeTagsFromFileContent (lit "---\ntags: [a, b, [object Object]]---\nBody")
         metadata [mkFolderTag 1 (lit "a") false]
       = Some NoWrite.
Proof.
  split; [reflexivity|].
  intros [[[|] t]|]; reflexivity.
Qed.

(** C3, at its own input.  Removing [tag1] from [Content #tag1 #tag2]
    keeps [#tag2] and drops [#tag1], and leaves two spaces in a row: the
    pattern takes the white space before the tag, the replacement is one
    space, and the space after the tag stays. *)
Theorem remove_inline_double_space :
  forall metadata,
    removeTagsFromFileContent (lit "Content #tag1 #tag2") metadata
      [mkFolderTag 0 (lit "tag1") false]
    = Some (Write (lit "Content  #tag2"))
    /\ includes (lit "Content  #tag2") (lit "#tag2") = true
    /\ includes (lit "Content  #tag2") (lit "#tag1") = false
    /\ includes (lit "Content  #tag2") (lit "  ") = true.
Proof.
  intros [[[|] t]|]; repeat split; reflexivity.
Qed.

(** C6 as stated fails: the cache reports frontmatter, the text has no
    delimited block, and nothing is appended. *)
Lemma add_unmatched_frontmatter_no_append :
  has_frontmatter with_frontmatter = true
  /\ frontmatter_match (lit "Body") = None
  /\ addTagsToFileContent (lit "Body") with_frontmatter [mkFolderTag 0 (lit "c") false]
     <> Write (lit "Body\n\n#c").
Proof. repeat split; discriminate. Qed.

(** C6, amended.  When the cache reports frontmatter and the text does not
    match the delimiter pattern, [addTagsToFileContent] writes nothing. *)
Theorem add_unmatched_frontmatter_no_write (content : jstring)
    (metadata : option CachedMetadata) (newTags : list FolderTag) :
  has_frontmatter metadata = true ->
  frontmatter_match content = None ->
  addTagsToFileContent content metadata newTags = NoWrite.
Proof.
  intros Hfm Hno; unfold addTagsToFileContent.
  destruct (is_nil newTags); [reflexivity|].
  destruct (is_nil _); [reflexivity|].
  rewrite Hfm, Hno; reflexivity.
Qed.

(** A note with carriage returns: the cache knows its frontmatter, the
    pattern does not find it. *)
Lemma add_unmatched_frontmatter_no_write_witness :
  addTagsToFileContent (lit "---\r\ntags: [a]\r\n---\r\nBody") with_frontmatter
    [mkFolderTag 0 (lit "c") false]
  = NoWrite.
Proof.
  apply add_unmatched_frontmatter_no_write; reflexivity.
Defined.

(** The inline append is the branch of a cache that reports no frontmatter. *)
Lemma add_without_frontmatter (content : jstring) (metadata : option CachedMetadata)
    (t : FolderTag) :
  has_frontmatter metadata = false ->
  (forall l, option_map md_tags metadata = Some (Some l) ->
             existsb (str_eqb (tag t)) (new_Set str_eqb (map substring_1 l)) = false) ->
  addTagsToFileContent content metadata [t]
  = Write (trimEnd content ++ lit "\n\n" ++ hashtag t).
Proof.
  intros Hfm Hnew; unfold addTagsToFileContent; simpl is_nil; cbv iota.
  assert (E : existsb (str_eqb (tag t))
                match metadata with
                | Some m => match md_tags m with
                            | Some l => new_Set str_eqb (map substring_1 l)
                            | None => []
                            end
                | None => []
                end = false).
  { destruct metadata as [[fm [l|]]|]; try reflexivity.
    apply Hnew; reflexivity. }
  simpl filter; rewrite E; simpl.
  rewrite Hfm; reflexivity.
Qed.

(** C7, at the input of the repository's own test.  What is written ends
    the block with [...]---]: the line feed before the closing dashes is
    gone, and the text written no longer has a block the pattern finds.
    The text after the block is as it was. *)
Theorem add_frontmatter_closing_line_feed_lost :
  addTagsToFileContent (lit "---\ntitle: Test\ntags: [existingtag]\n---\nContent")
    with_frontmatter [mkFolderTag 0 (lit "newtag") false]
  = Write (lit "---\ntitle: Test\ntags: [existingtag, [object Object]]---\nContent")
  /\ frontmatter_match (lit "---\ntitle: Test\ntags: [existingtag]\n---\nContent")
     = Some (lit "title: Test\ntags: [existingtag]", lit "\nContent")
  /\ frontmatter_match
       (lit "---\ntitle: Test\ntags: [existingtag, [object Object]]---\nContent")
     = None.
Proof. repeat split; reflexivity. Qed.

(** The part of C7 that holds: the text after the block is kept as it is. *)
Lemma add_frontmatter_keeps_rest (content block after : jstring)
    (metadata : option CachedMetadata) (newTags : list FolderTag) (written : jstring) :
  frontmatter_match content = Some (block, after) ->
  has_frontmatter metadata = true ->
  addTagsToFileContent content metadata newTags = Write written ->
  exists patched, written = patched ++ after.
Proof.
  intros Hm Hfm; unfold addTagsToFileContent.
  destruct (is_nil newTags); [discriminate|].
  destruct (is_nil _); [discriminate|].
  rewrite Hfm, Hm; unfold replace_frontmatter; rewrite Hm.
  match goal with |- Write (?p ++ after) = _ -> _ => generalize p end.
  intros patched H; exists patched; congruence.
Qed.

Lemma addTagsToFileContent_place (content : jstring) (metadata : option CachedMetadata)
    (newTags : list FolderTag) :
  addTagsToFileContent content metadata newTags
  = if is_nil newTags then NoWrite
    else let tagsToAdd :=
           filter (fun t => negb (existsb (str_eqb (tag t)) (cached_names metadata)))
             newTags in
         if is_nil tagsToAdd then NoWrite
         else place_tags content (has_frontmatter metadata) tagsToAdd.
Proof. reflexivity. Qed.

(** A name that is not in the text is not among the names of an
    up-to-date cache. *)
Lemma cached_names_in_text (metadata : option CachedMetadata) (content name : jstring) :
  cache_lists_text_tags metadata content = true ->
  includes content name = false ->
  existsb (str_eqb name) (cached_names metadata) = false.
Proof.
  intros Hc Hno.
  destruct (existsb _ _) eqn:E; [|reflexivity].
  apply existsb_exists in E as (y & Hy & Ey).
  apply str_eqb_eq in Ey; subst y.
  destruct metadata as [[fm [l|]]|]; simpl in Hy; try contradiction.
  apply new_Set_incl, in_map_iff in Hy as (t & Et & Ht).
  simpl in Hc; rewrite forallb_forall in Hc.
  specialize (Hc t Ht); congruence.
Qed.

(** One tag that the cache does not list goes on to be placed. *)
Lemma add_single (content : jstring) (metadata : option CachedMetadata) (t : FolderTag) :
  existsb (str_eqb (tag t)) (cached_names metadata) = false ->
  addTagsToFileContent content metadata [t]
  = place_tags content (has_frontmatter metadata) [t].
Proof.
  intros E; rewrite addTagsToFileContent_place.
  cbn [is_nil filter]; rewrite E; reflexivity.
Qed.

(** C5, at an input where it fails.  A note with frontmatter and a rule
    further down gets the tag [work].  The cache is then brought up to date
    with what was written; whatever it reports about frontmatter, the second
    call with the same tag writes again, and writes a different text: the
    name [work] is nowhere in what the first call wrote, so no up-to-date
    cache lists it. *)
Theorem add_twice_writes_twice :
  addTagsToFileContent ruled_note with_frontmatter [mkFolderTag 0 (lit "work") false]
  = Write ruled_note_once
  /\ forall metadata,
       cache_lists_text_tags metadata ruled_note_once = true ->
       exists again,
         addTagsToFileContent ruled_note_once metadata [mkFolderTag 0 (lit "work") false]
         = Write again
         /\ str_eqb again ruled_note_once = false.
Proof.
  split; [reflexivity|].
  intros metadata Hc.
  rewrite add_single
    by (apply cached_names_in_text with (content := ruled_note_once);
        [exact Hc|reflexivity]).
  destruct (has_frontmatter metadata); eexists; split;
    [vm_compute; reflexivity|reflexivity|vm_compute; reflexivity|reflexivity].
Qed.

(** The second application, as it runs when the cache still reports the
    frontmatter: the block now reaches down to the rule, and a second
    object is appended to the tags. *)
Example add_twice_frontmatter_run :
  addTagsToFileContent ruled_note_once with_frontmatter [mkFolderTag 0 (lit "work") false]
  = Write (lit "---\ntitle: T\ntags: [[[object Object]]---, [object Object]]---\nmore").
Proof. reflexivity. Qed.

(** And as it runs when the cache reports no frontmatter any more. *)
Example add_twice_inline_run :
  addTagsToFileContent ruled_note_once (Some {| frontmatter := false; md_tags := None |})
    [mkFolderTag 0 (lit "work") false]
  = Write (lit "---\ntitle: T\ntags: [[object Object]]---\nBody\n---\nmore\n\n#work").
Proof. reflexivity. Qed.

(** Without frontmatter the second application is the no-op C5 describes,
    once the cache lists the hashtag that the first one appended. *)
Lemma add_twice_inline (content : jstring) (t : FolderTag) (listed : list jstring) :
  In (hashtag t) listed ->
  addTagsToFileContent (trimEnd content ++ lit "\n\n" ++ hashtag t)
    (Some {| frontmatter := false; md_tags := Some listed |}) [t]
  = NoWrite.
Proof.
  intros Hin; rewrite addTagsToFileContent_place; cbn [is_nil filter].
  assert (E : existsb (str_eqb (tag t))
                (cached_names (Some {| frontmatter := false; md_tags := Some listed |}))
              = true).
  { simpl.
    destruct (Set_fold_complete str_eqb (map substring_1 listed) [] (tag t))
      as (y & Hy & Ey).
    - change (tag t) with (substring_1 (hashtag t)); apply in_map; exact Hin.
    - apply existsb_exists; exists y; split; [exact Hy|].
      destruct Ey as [->|Ey]; [apply str_eqb_refl|exact Ey]. }
  rewrite E; reflexivity.
Qed.

(** ** Folder tag edit *)

(** C8, at an input where it fails.  The folder is [foo]; the file
    [foobar/x.md] is in a sibling folder, and the call reaches it all the
    same, next to [foo/y.md]: the files are chosen by [startsWith] on the
    path, with nothing that ends the folder name. *)
Theorem addTagsToFolder_reaches_sibling :
  snd (addTagsToFolder DEFAULT_SETTINGS (lit "foo")
         [lit "foobar/x.md"; lit "foo/y.md"; lit "other/z.md"]
         [mkFolderTag 0 (lit "t") false])
  = [ AddCall (lit "foobar/x.md") [mkFolderTag 0 (lit "t") false];
      AddCall (lit "foo/y.md") [mkFolderTag 0 (lit "t") false] ].
Proof. reflexivity. Qed.


Lemma submitted_direct (modalTags : list FolderTag) (u : FolderTag) :
  In u (submitted modalTags) <-> In u modalTags /\ inherited u = false.
Proof.
  unfold submitted; rewrite filter_In, negb_true_iff; reflexivity.
Qed.

(** For prior tags stored as direct, the removed set is the one the claim
    names: the prior tags whose name is not submitted. *)
Lemma removedTags_by_name (currentTags modalTags : list FolderTag) :
  (forall t, In t currentTags -> inherited t = false) ->
  removedTags_of currentTags (submitted modalTags)
  = new_Set same_object (spec_removed currentTags (submitted modalTags)).
Proof.
  intros Hdirect; unfold removedTags_of, spec_removed; f_equal.
  apply filter_ext_in; intros t Ht; f_equal.
  rewrite (Hdirect t Ht).
  assert (Hnew : forall u, In u (submitted modalTags) -> inherited u = false)
    by (intros u Hu; apply (proj1 (submitted_direct modalTags u) Hu)).
  induction (submitted modalTags) as [|u l IH]; [reflexivity|].
  simpl; rewrite (Hnew u (or_introl eq_refl)), andb_true_r; f_equal.
  apply IH; intros x Hx; apply Hnew; right; exact Hx.
Qed.



(** ** Minimal frontmatter codec *)

Lemma split_no_sep (sep : char) (s : jstring) :
  has_char sep s = false -> split sep s = [s].
Proof.
  induction s as [|c s IH]; simpl; [reflexivity|].
  intros H; apply orb_false_iff in H as [Hc Hs].
  rewrite N.eqb_sym, Hc, (IH Hs); reflexivity.
Qed.

Lemma parseYaml_app (a b : jstring) :
  parseYaml (a ++ LF :: b) = fold_left parse_line (split LF b) (parseYaml a).
Proof.
  unfold parseYaml; rewrite split_app_sep, fold_left_app; reflexivity.
Qed.

(** A line without a colon, or with nothing but white space before its
    first colon, leaves the object as it is. *)
Lemma parse_line_skip (o : object) (line : jstring) :
  has_char COLON line = false \/ line_key line = [] ->
  parse_line o line = o.
Proof.
  unfold parse_line, line_key.
  intros [H|H].
  - rewrite (split_no_sep COLON line H); simpl.
    rewrite andb_false_r; reflexivity.
  - destruct (map trim (split COLON line)) as [|key values]; [reflexivity|].
    simpl in H; subst key; reflexivity.
Qed.

Lemma obj_get_set (o : object) (k : jstring) (v : value) :
  obj_get (obj_set o k v) k = Some v.
Proof.
  induction o as [|[k' v'] o IH]; simpl.
  - rewrite str_eqb_refl; reflexivity.
  - destruct (str_eqb k' k) eqn:E; simpl; rewrite E; [reflexivity|exact IH].
Qed.

(** A line with a key and nothing after the colon is stored: its value is
    the empty string. *)
Lemma parse_line_empty_value (o : object) (k v : jstring) :
  has_char COLON k = false -> has_char COLON v = false ->
  trim k <> [] -> trim k <> lit "__proto__" -> trim v = [] ->
  obj_get (parse_line o (k ++ COLON :: v)) (trim k) = Some (VStr []).
Proof.
  intros Hk Hv Hkey Hproto Hval; unfold parse_line.
  rewrite split_app_sep, (split_no_sep COLON k Hk), (split_no_sep COLON v Hv).
  simpl map; rewrite Hval.
  destruct (trim k) as [|c key] eqn:E; [congruence|].
  simpl; unfold obj_assign.
  destruct (str_eqb (c :: key) (lit "__proto__")) eqn:Ep.
  - apply str_eqb_eq in Ep; congruence.
  - apply obj_get_set.
Qed.

(** C10 as stated fails on the empty value.  The line [title:] has a key
    and an empty value; it is stored, not skipped, and the object parsed
    from a text with that line differs from the one parsed without it. *)
Lemma parseYaml_keeps_empty_value :
  line_key (lit "title:") = lit "title"
  /\ line_value (lit "title:") = []
  /\ parseYaml (lit "title:") = [(lit "title", VStr [])]
  /\ parseYaml (lit "title:\nname: x") <> parseYaml (lit "name: x").
Proof. repeat split; discriminate. Qed.

Lemma split_has_sep (sep : char) (s : jstring) :
  has_char sep s = true -> exists p q r, split sep s = p :: q :: r.
Proof.
  induction s as [|c s IH]; intros H; [discriminate|].
  change (has_char sep (c :: s)) with (N.eqb sep c || has_char sep s) in H.
  cbn [split]; rewrite N.eqb_sym.
  destruct (N.eqb sep c) eqn:E.
  - destruct (split sep s) as [|q r] eqn:Es; [exfalso; exact (split_not_nil _ _ Es)|].
    exists [], q, r; reflexivity.
  - destruct (IH H) as (p & q & r & ->).
    exists (c :: p), q, r; reflexivity.
Qed.

(** A line with a colon, a key that is not [__proto__] and nothing for a
    value sets the key to the empty string. *)
Lemma parse_line_kept (o : object) (line : jstring) :
  has_char COLON line = true ->
  line_key line <> [] -> line_key line <> lit "__proto__" ->
  line_value line = [] ->
  parse_line o line = obj_set o (line_key line) (VStr []).
Proof.
  unfold line_key, line_value, parse_line; intros Hc Hkey Hproto Hval.
  destruct (split_has_sep COLON line Hc) as (p & q & r & E).
  rewrite E in *; cbn [map hd tl] in *.
  destruct (trim p) as [|k0 key] eqn:Ek; [congruence|].
  cbn [truthy is_nil negb andb]; rewrite Hval.
  cbn [startsWith lit andb]; unfold obj_assign.
  destruct (str_eqb (k0 :: key) (lit "__proto__")) eqn:Ep; [|reflexivity].
  apply str_eqb_eq in Ep; congruence.
Qed.

(** C10, amended.  [parseYaml] is a total function of its text.  A line
    that has no colon, or whose key is empty after trimming, is skipped:
    it leaves the object built so far as it is, and the lines before and
    after it are parsed as if it were not there.  A line with a key and an
    empty value is not skipped: unless the key is [__proto__], the key is
    stored with the empty string as its value. *)
Theorem parseYaml_skips_malformed_line (line kept : jstring) :
  has_char LF line = false ->
  has_char COLON line = false \/ line_key line = [] ->
  has_char LF kept = false ->
  has_char COLON kept = true ->
  line_key kept <> [] -> line_key kept <> lit "__proto__" ->
  line_value kept = [] ->
  ((forall o, parse_line o line = o)
   /\ (forall pre post,
         parseYaml (pre ++ LF :: line ++ LF :: post) = parseYaml (pre ++ LF :: post))
   /\ (forall post, parseYaml (line ++ LF :: post) = parseYaml post)
   /\ (forall pre, parseYaml (pre ++ LF :: line) = parseYaml pre)
   /\ parseYaml line = [])
  /\ ((forall o, obj_get (parse_line o kept) (line_key kept) = Some (VStr []))
      /\ (forall pre,
            obj_get (parseYaml (pre ++ LF :: kept)) (line_key kept) = Some (VStr []))
      /\ (forall pre,
            obj_get (parseYaml (pre ++ LF :: kept ++ LF :: line)) (line_key kept)
            = Some (VStr []))
      /\ parseYaml kept = [(line_key kept, VStr [])]).
Proof.
  intros Hlf Hskip Klf Kcolon Kkey Kproto Kval.
  assert (Hline : forall o, fold_left parse_line (split LF line) o = o).
  { intros o; rewrite (split_no_sep LF line Hlf); simpl.
    apply parse_line_skip; exact Hskip. }
  assert (Hkept : forall o, fold_left parse_line (split LF kept) o
                            = obj_set o (line_key kept) (VStr [])).
  { intros o; rewrite (split_no_sep LF kept Klf); simpl.
    apply parse_line_kept; assumption. }
  split.
  - split; [intros o; apply parse_line_skip; exact Hskip|].
    split; [|split; [|split]].
    + intros pre post.
      rewrite !parseYaml_app, split_app_sep, fold_left_app, Hline; reflexivity.
    + intros post; rewrite parseYaml_app.
      unfold parseYaml at 1; rewrite Hline; reflexivity.
    + intros pre; rewrite parseYaml_app; apply Hline.
    + apply Hline.
  - split; [|split; [|split]].
    + intros o; rewrite parse_line_kept by assumption; apply obj_get_set.
    + intros pre; rewrite parseYaml_app, Hkept; apply obj_get_set.
    + intros pre.
      rewrite parseYaml_app, split_app_sep, fold_left_app, Hkept, Hline.
      apply obj_get_set.
    + unfold parseYaml; rewrite Hkept; reflexivity.
Qed.

(** A line with a colon and no key, and the line [title:]. *)
Lemma parseYaml_skips_malformed_line_witness :
  ((forall o, parse_line o (lit "  : no key") = o)
   /\ (forall pre post,
         parseYaml (pre ++ LF :: lit "  : no key" ++ LF :: post)
         = parseYaml (pre ++ LF :: post))
   /\ (forall post, parseYaml (lit "  : no key" ++ LF :: post) = parseYaml post)
   /\ (forall pre, parseYaml (pre ++ LF :: lit "  : no key") = parseYaml pre)
   /\ parseYaml (lit "  : no key") = [])
  /\ ((forall o, obj_get (parse_line o (lit "title:")) (line_key (lit "title:"))
                 = Some (VStr []))
      /\ (forall pre,
            obj_get (parseYaml (pre ++ LF :: lit "title:")) (line_key (lit "title:"))
            = Some (VStr []))
      /\ (forall pre,
            obj_get (parseYaml (pre ++ LF :: lit "title:" ++ LF :: lit "  : no key"))
              (line_key (lit "title:"))
            = Some (VStr []))
      /\ parseYaml (lit "title:") = [(line_key (lit "title:"), VStr [])]).
Proof.
  apply (parseYaml_skips_malformed_line (lit "  : no key") (lit "title:")).
  - reflexivity.
  - right; reflexivity.
  - reflexivity.
  - reflexivity.
  - discriminate.
  - discriminate.
  - reflexivity.
Defined.

(** The one key that is not stored: an assignment to [__proto__] reaches
    the accessor of [Object.prototype], which ignores a string. *)
Example parseYaml_proto_line :
  parseYaml (lit "__proto__:") = [] /\ parseYaml (lit "__proto__: x\ntitle:") =
  [(lit "title", VStr [])].
Proof. split; reflexivity. Qed.

(** A text with a line of each kind: no colon, no key, no value, a list, a
    scalar with a colon in it. *)
Example parseYaml_run :
  parseYaml (lit "just words\n: orphan\ntitle:\ntags: [a, b]\nurl: http://x")
  = [ (lit "title", VStr []);
      (lit "tags", VArr [EStr (lit "a"); EStr (lit "b")]);
      (lit "url", VStr (lit "http://x")) ].
Proof. reflexivity. Qed.

(** ** The revision with string tags *)

(** The round trip of C1 in [src/main.ts]: the tag is written by name, the
    line feed before the closing dashes is lost all the same, and the
    removal that follows patches nothing. *)
Example string_tags_roundtrip :
  StringTags.addTagsToFileContent (lit "---\ntags: [a, b]\n---\nBody")
    (Some (StringTags.mkMetadata (Some (Some (StringTags.FmList [lit "a"; lit "b"]))) None))
    [lit "c"]
  = Write (lit "---\ntags: [a, b, c]---\nBody")
  /\ forall metadata,
       StringTags.removeTagsFromFileContent (lit "---\ntags: [a, b, c]---\nBody")
         metadata [lit "a"]
       = Some NoWrite.
Proof.
  split; [reflexivity|].
  intros [[[fm|] t]|]; reflexivity.
Qed.

(** The inline removal of C3 is the same code in [src/main.ts]. *)
Example string_tags_double_space :
  forall metadata,
    StringTags.removeTagsFromFileContent (lit "Content #tag1 #tag2") metadata [lit "tag1"]
    = Some (Write (lit "Content  #tag2")).
Proof. intros [[[fm|] t]|]; reflexivity. Qed.

(** Adding twice in [src/main.ts], to a note without frontmatter.  The
    inline tags are read as [Object.keys] of an array, which are its
    indices: the cache lists [#c] after the first call, the name read is
    the empty string, and the second call appends [#c] once more. *)
Example string_tags_add_twice :
  StringTags.addTagsToFileContent (lit "Body") None [lit "c"]
  = Write (lit "Body\n\n#c")
  /\ StringTags.addTagsToFileContent (lit "Body\n\n#c")
       (Some (StringTags.mkMetadata None (Some [lit "#c"]))) [lit "c"]
     = Write (lit "Body\n\n#c\n\n#c").
Proof. split; reflexivity. Qed.

(** The unmatched frontmatter of C6 in [src/main.ts]: nothing is written. *)
Example string_tags_unmatched_frontmatter :
  StringTags.addTagsToFileContent (lit "Body")
    (Some (StringTags.mkMetadata (Some None) None)) [lit "c"]
  = NoWrite.
Proof. reflexivity. Qed.

(** The sets of C9 in [src/main.ts] are taken against the resolved tags of
    the folder, inherited ones included: submitting the direct tag [a] of
    [p/f] alone asks for the removal of [up], the tag of its parent; and the
    sibling file of C8 is reached here too. *)
Example string_tags_folder_edit :
  StringTags.addTagsToFolder
    (StringTags.mkSettings
       [ StringTags.mkFolderTag (lit "p") [lit "up"];
         StringTags.mkFolderTag (lit "p/f") [lit "a"] ])
    (lit "p/f") [lit "p/f/x.md"; lit "p/foo/y.md"] [lit "a"]
  = [ StringTags.RemoveCall (lit "p/f/x.md") [lit "up"];
      StringTags.RemoveCall (lit "p/foo/y.md") [lit "up"] ].
Proof. reflexivity. Qed.

(** * Further properties *)

(** ** Settings *)

Lemma find_snoc {A} (f : A -> bool) (l : list A) (x : A) :
  find f (l ++ [x])
  = match find f l with
    | Some y => Some y
    | None => if f x then Some x else None
    end.
Proof.
  induction l as [|a l IH]; simpl; [reflexivity|].
  destruct (f a); [reflexivity|exact IH].
Qed.

Lemma str_eqb_trans_l (a b c : jstring) :
  str_eqb a b = true -> str_eqb a c = str_eqb b c.
Proof. intros H; apply str_eqb_eq in H; subst; reflexivity. Qed.

Lemma replace_tags_spec (p : jstring) (ts : list FolderTag) (l : list FolderTags) :
  match replace_tags p ts l with
  | Some l' =>
      map path l' = map path l
      /\ forall q, find (fun ft => str_eqb (path ft) q) l'
                   = if str_eqb p q then Some {| path := p; tags := ts |}
                     else find (fun ft => str_eqb (path ft) q) l
  | None => find (fun ft => str_eqb (path ft) p) l = None
  end.
Proof.
  induction l as [|ft r IH]; simpl; [reflexivity|].
  destruct (str_eqb (path ft) p) eqn:E.
  - split; [reflexivity|]; intros q; simpl.
    rewrite (str_eqb_trans_l _ _ q E).
    apply str_eqb_eq in E; rewrite E.
    destruct (str_eqb p q); reflexivity.
  - destruct (replace_tags p ts r) as [l'|]; simpl; [|exact IH].
    destruct IH as [Hp Hf]; split; [f_equal; exact Hp|].
    intros q; destruct (str_eqb (path ft) q) eqn:Eq.
    + destruct (str_eqb p q) eqn:Epq; [|reflexivity].
      apply str_eqb_eq in Eq, Epq; subst.
      rewrite str_eqb_refl in E; discriminate.
    + apply Hf.
Qed.

Lemma find_record_save (st : FolderTagsSettings) (p q : jstring)
    (ts : list FolderTag) :
  find_record (saveFolderTags st p ts) q
  = if str_eqb p q then Some {| path := p; tags := ts |} else find_record st q.
Proof.
  unfold saveFolderTags, find_record.
  pose proof (replace_tags_spec p ts (folderTags st)) as H.
  destruct (replace_tags p ts (folderTags st)) as [l'|]; simpl.
  - apply H.
  - rewrite find_snoc; simpl.
    destruct (str_eqb p q) eqn:E.
    + apply str_eqb_eq in E; subst q; rewrite H; reflexivity.
    + destruct (find (fun ft => str_eqb (path ft) q) (folderTags st)); reflexivity.
Qed.

(** X1.  [saveFolderTags] is an upsert: afterwards the record found for
    the path holds the tags that were saved, so they are the direct tags
    of the folder, and the direct tags of any other folder are those it
    had before. *)
Theorem saveFolderTags_lookup (st : FolderTagsSettings) (p : jstring)
    (ts : list FolderTag) :
  find_record (saveFolderTags st p ts) p = Some {| path := p; tags := ts |}
  /\ direct_tags (saveFolderTags st p ts) p = ts
  /\ forall q, q <> p ->
       find_record (saveFolderTags st p ts) q = find_record st q
       /\ direct_tags (saveFolderTags st p ts) q = direct_tags st q.
Proof.
  unfold direct_tags; split; [|split].
  - rewrite find_record_save, str_eqb_refl; reflexivity.
  - rewrite find_record_save, str_eqb_refl; reflexivity.
  - intros q Hq.
    assert (E : str_eqb p q = false).
    { destruct (str_eqb p q) eqn:E; [|reflexivity].
      apply str_eqb_eq in E; congruence. }
    rewrite find_record_save, E; split; reflexivity.
Qed.

Lemma find_none_path (l : list FolderTags) (p : jstring) :
  find (fun ft => str_eqb (path ft) p) l = None -> ~ In p (map path l).
Proof.
  intros H Hin; apply in_map_iff in Hin as (ft & E & Hft).
  apply (find_none _ _ H) in Hft; simpl in Hft.
  rewrite E, str_eqb_refl in Hft; discriminate.
Qed.

Lemma NoDup_snoc {A} (l : list A) (x : A) :
  NoDup l -> ~ In x l -> NoDup (l ++ [x]).
Proof.
  induction 1 as [|a l Ha Hl IH]; intros Hx; simpl.
  - constructor; [intros []|constructor].
  - constructor.
    + intros Hin; apply in_app_or in Hin as [Hin|[<-|[]]]; [exact (Ha Hin)|].
      apply Hx; left; reflexivity.
    + apply IH; intros Hin; apply Hx; right; exact Hin.
Qed.

(** X2.  [saveFolderTags] keeps the paths of the records distinct, and
    adds one record at most. *)
Theorem saveFolderTags_unique_paths (st : FolderTagsSettings) (p : jstring)
    (ts : list FolderTag) :
  NoDup (map path (folderTags st)) ->
  NoDup (map path (folderTags (saveFolderTags st p ts)))
  /\ length (folderTags (saveFolderTags st p ts)) <= S (length (folderTags st)).
Proof.
  intros Hnd; unfold saveFolderTags.
  pose proof (replace_tags_spec p ts (folderTags st)) as H.
  destruct (replace_tags p ts (folderTags st)) as [l'|]; simpl.
  - destruct H as [Hp _]; rewrite Hp; split; [exact Hnd|].
    rewrite <- (length_map path l'), Hp, length_map; auto.
  - rewrite map_app, length_app; simpl; split; [|lia].
    apply NoDup_snoc; [exact Hnd|apply find_none_path; exact H].
Qed.

Lemma saveFolderTags_unique_paths_witness :
  NoDup (map path (folderTags (saveFolderTags chain_settings (lit "a/b") [])))
  /\ length (folderTags (saveFolderTags chain_settings (lit "a/b") []))
     <= S (length (folderTags chain_settings)).
Proof.
  apply saveFolderTags_unique_paths.
  repeat constructor; simpl; intuition discriminate.
Defined.

Lemma replace_tags_twice (p : jstring) (a b : list FolderTag) (l : list FolderTags) :
  match replace_tags p a l with
  | Some l' =>
      exists l2, replace_tags p b l' = Some l2 /\ replace_tags p b l = Some l2
  | None => replace_tags p b l = None
  end.
Proof.
  induction l as [|ft r IH]; simpl; [reflexivity|].
  destruct (str_eqb (path ft) p) eqn:E; simpl.
  - rewrite E; eexists; split; reflexivity.
  - destruct (replace_tags p a r) as [l'|]; simpl.
    + destruct IH as (l2 & H1 & H2).
      rewrite E, H1, H2; eexists; split; reflexivity.
    + rewrite IH; reflexivity.
Qed.

Lemma replace_tags_snoc (p : jstring) (a b : list FolderTag) (l : list FolderTags) :
  replace_tags p b l = None ->
  replace_tags p b (l ++ [{| path := p; tags := a |}])
  = Some (l ++ [{| path := p; tags := b |}]).
Proof.
  induction l as [|ft r IH]; simpl; intros H.
  - rewrite str_eqb_refl; reflexivity.
  - destruct (str_eqb (path ft) p); [discriminate|].
    destruct (replace_tags p b r); [discriminate|].
    rewrite IH by reflexivity; reflexivity.
Qed.

(** X3.  Saving the tags of a folder a second time overwrites the first
    save: the settings are those of the second save alone. *)
Theorem saveFolderTags_overwrites (st : FolderTagsSettings) (p : jstring)
    (a b : list FolderTag) :
  saveFolderTags (saveFolderTags st p a) p b = saveFolderTags st p b.
Proof.
  unfold saveFolderTags.
  pose proof (replace_tags_twice p a b (folderTags st)) as H.
  destruct (replace_tags p a (folderTags st)) as [l'|]; simpl.
  - destruct H as (l2 & H1 & H2); rewrite H1, H2; reflexivity.
  - rewrite H, (replace_tags_snoc p a b _ H); reflexivity.
Qed.

Lemma find_filter_path (l : list FolderTags) (p q : jstring) :
  find (fun ft => str_eqb (path ft) q)
    (filter (fun ft => negb (str_eqb (path ft) p)) l)
  = if str_eqb p q then None else find (fun ft => str_eqb (path ft) q) l.
Proof.
  induction l as [|ft r IH]; simpl; [destruct (str_eqb p q); reflexivity|].
  destruct (str_eqb (path ft) p) eqn:Ep; simpl.
  - rewrite IH, (str_eqb_trans_l _ _ q Ep).
    destruct (str_eqb p q); reflexivity.
  - destruct (str_eqb (path ft) q) eqn:Eq; [|exact IH].
    destruct (str_eqb p q) eqn:Epq; [|reflexivity].
    apply str_eqb_eq in Eq, Epq; subst.
    rewrite str_eqb_refl in Ep; discriminate.
Qed.

(** X4.  The Remove button leaves no record for the path, whatever was
    saved for it before, and leaves the record found for any other path as
    it was. *)
Theorem remove_record_find (st : FolderTagsSettings) (p q : jstring)
    (ts : list FolderTag) :
  find_record (remove_record st p) q
  = (if str_eqb p q then None else find_record st q)
  /\ find_record (remove_record (saveFolderTags st p ts) p) q
     = (if str_eqb p q then None else find_record st q).
Proof.
  unfold remove_record, find_record at 1 3; simpl.
  rewrite !find_filter_path; split; [reflexivity|].
  fold (find_record (saveFolderTags st p ts) q).
  rewrite find_record_save.
  destruct (str_eqb p q); reflexivity.
Qed.

(** ** Tag resolver *)

Lemma visited_glued (cur : jstring) (ps : list jstring) (p : jstring) :
  cur <> [] ->
  In p (visited cur (removelast ps)) ->
  exists rest, cur ++ concat (map (cons SLASH) ps) = p ++ SLASH :: rest.
Proof.
  revert cur; induction ps as [|x ps IH]; intros cur Hcur Hin; [destruct Hin|].
  destruct ps as [|y r]; [destruct Hin|].
  assert (E : extend_path cur x = cur ++ SLASH :: x).
  { unfold extend_path; destruct cur; [congruence|]; simpl.
    rewrite <- app_assoc; reflexivity. }
  change (removelast (x :: y :: r)) with (x :: removelast (y :: r)) in Hin.
  simpl visited in Hin; rewrite E in Hin.
  change (concat (map (cons SLASH) (x :: y :: r)))
    with ((SLASH :: x) ++ concat (map (cons SLASH) (y :: r))).
  rewrite app_assoc.
  destruct Hin as [<-|Hin].
  - simpl; eexists; reflexivity.
  - apply IH; [destruct cur; discriminate|exact Hin].
Qed.

(** Every path [getInheritedTags] looks up is a strict ancestor. *)
Lemma visited_ancestor (C p : jstring) :
  hd_error C <> Some SLASH ->
  In p (visited [] (removelast (split SLASH C))) ->
  is_ancestor p C.
Proof.
  intros HC Hin.
  assert (Hrest : exists rest, C = p ++ SLASH :: rest).
  { destruct C as [|c C]; [destruct Hin|].
    pose proof (unsplit SLASH (c :: C)) as Hun.
    simpl in Hin, Hun.
    destruct (N.eqb c SLASH) eqn:Ec; [apply N.eqb_eq in Ec; simpl in HC; congruence|].
    destruct (split SLASH C) as [|q qs] eqn:E; [exfalso; exact (split_not_nil _ _ E)|].
    specialize (Hun _ _ eq_refl).
    destruct qs as [|y r]; [destruct Hin|].
    change (removelast ((c :: q) :: y :: r)) with ((c :: q) :: removelast (y :: r)) in Hin.
    destruct Hin as [<-|Hin].
    - rewrite <- Hun; simpl; eexists; reflexivity.
    - change (extend_path [] (c :: q)) with (c :: q) in Hin.
      rewrite <- Hun; apply visited_glued; [discriminate|exact Hin]. }
  split; [|exact Hrest].
  destruct Hrest as (rest & ->).
  destruct p; [simpl in HC; congruence|exact HC].
Qed.

Lemma inherit_loop_agree (st1 st2 : FolderTagsSettings) (parts : list jstring) :
  forall cur inh n,
    (forall p, In p (visited cur parts) -> find_record st1 p = find_record st2 p) ->
    inherit_loop st1 parts cur inh n = inherit_loop st2 parts cur inh n.
Proof.
  induction parts as [|part rest IH]; intros cur inh n H; [reflexivity|].
  simpl; rewrite (H _ (or_introl eq_refl)).
  destruct (find_record st2 (extend_path cur part)).
  - rewrite !bind_run; apply IH; intros p Hp; apply H; right; exact Hp.
  - apply IH; intros p Hp; apply H; right; exact Hp.
Qed.

Lemma resolve_agree (st1 st2 : FolderTagsSettings) (C : jstring) (n : nat) :
  hd_error C <> Some SLASH ->
  find_record st1 C = find_record st2 C ->
  (forall A, is_ancestor A C -> find_record st1 A = find_record st2 A) ->
  getInheritedTags st1 C n = getInheritedTags st2 C n
  /\ getFolderTags st1 C n = getFolderTags st2 C n.
Proof.
  intros HC Hown Hanc.
  assert (E : getInheritedTags st1 C n = getInheritedTags st2 C n).
  { apply inherit_loop_agree; intros p Hp.
    apply Hanc, visited_ancestor; assumption. }
  split; [exact E|].
  unfold getFolderTags, direct_tags; rewrite !bind_run, E, Hown; reflexivity.
Qed.

(** X5.  The tags resolved for a folder depend on the settings through
    the record of the folder and the records of its strict ancestors only:
    two settings that agree on these give the same answer. *)
Theorem getFolderTags_local (st1 st2 : FolderTagsSettings) (C : jstring) (n : nat) :
  hd_error C <> Some SLASH ->
  find_record st1 C = find_record st2 C ->
  (forall A, is_ancestor A C -> find_record st1 A = find_record st2 A) ->
  getFolderTags st1 C n = getFolderTags st2 C n.
Proof.
  intros HC Hown Hanc; apply resolve_agree; assumption.
Qed.

Lemma getFolderTags_local_witness :
  getFolderTags chain_settings (lit "a/b") 3
  = getFolderTags (saveFolderTags chain_settings (lit "a/b/c") []) (lit "a/b") 3.
Proof.
  apply getFolderTags_local.
  - discriminate.
  - reflexivity.
  - intros A [_ (rest & E)].
    rewrite find_record_save.
    destruct (str_eqb (lit "a/b/c") A) eqn:EA; [|reflexivity].
    apply str_eqb_eq in EA; subst A.
    apply (f_equal (@length _)) in E; rewrite length_app in E; simpl in E; lia.
Defined.

Lemma inherit_loop_none (st : FolderTagsSettings) (parts : list jstring) :
  forall cur inh n,
    (forall p, In p (visited cur parts) -> find_record st p = None) ->
    inherit_loop st parts cur inh n = (inh, n).
Proof.
  induction parts as [|part rest IH]; intros cur inh n H; [reflexivity|].
  simpl; rewrite (H _ (or_introl eq_refl)).
  apply IH; intros p Hp; apply H; right; exact Hp.
Qed.

(** X6.  A folder without a record, none of whose strict ancestors has a
    record, resolves to no tag at all, and no object is made. *)
Theorem getFolderTags_empty (st : FolderTagsSettings) (C : jstring) (n : nat) :
  hd_error C <> Some SLASH ->
  find_record st C = None ->
  (forall A, is_ancestor A C -> find_record st A = None) ->
  getFolderTags st C n = ([], n).
Proof.
  intros HC Hown Hanc.
  unfold getFolderTags, direct_tags, getInheritedTags.
  rewrite bind_run, Hown, inherit_loop_none; [reflexivity|].
  intros p Hp; apply Hanc, visited_ancestor; assumption.
Qed.

Lemma getFolderTags_empty_witness :
  getFolderTags one_folder (lit "g/h") 1 = ([], 1).
Proof.
  apply getFolderTags_empty.
  - discriminate.
  - reflexivity.
  - intros A [_ (rest & E)].
    change (find_record one_folder A)
      with (if str_eqb (lit "f") A
            then Some {| path := lit "f"; tags := [mkFolderTag 0 (lit "a") false] |}
            else None).
    destruct (str_eqb (lit "f") A) eqn:EA; [|reflexivity].
    apply str_eqb_eq in EA; subst A; discriminate E.
Defined.

Lemma inherit_loop_origin (st : FolderTagsSettings) (parts : list jstring) :
  forall cur inh n e,
    In e (fst (inherit_loop st parts cur inh n)) ->
    (exists t, In t inh /\ tag t = tag e)
    \/ (exists p rec t, In p (visited cur parts) /\ find_record st p = Some rec
                        /\ In t (tags rec) /\ tag t = tag e).
Proof.
  induction parts as [|part rest IH]; intros cur inh n e He; simpl in He.
  - left; exists e; split; [exact He|reflexivity].
  - destruct (find_record st (extend_path cur part)) as [ft|] eqn:Efind.
    + rewrite !bind_run in He.
      apply IH in He as [(t & Ht & Et)|(p & rec & t & Hp & Hrec & Ht & Et)].
      * apply in_app_or in Ht as [Ht|Ht].
        -- destruct (in_map_tag (fst (mapA as_inherited inh n)) inh t) as (u & Hu & Eu);
             [symmetry; apply mapA_as_inherited|exact Ht|].
           left; exists u; split; [exact Hu|congruence].
        -- destruct (in_map_tag
                       (fst (mapA as_inherited (tags ft)
                               (snd (mapA as_inherited inh n)))) (tags ft) t)
             as (u & Hu & Eu);
             [symmetry; apply mapA_as_inherited|exact Ht|].
           right; exists (extend_path cur part), ft, u.
           split; [left; reflexivity|split; [exact Efind|split; [exact Hu|congruence]]].
      * right; exists p, rec, t.
        split; [right; exact Hp|split; [exact Hrec|split; assumption]].
    + apply IH in He as [H|(p & rec & t & Hp & Hrec & Ht & Et)]; [left; exact H|].
      right; exists p, rec, t.
      split; [right; exact Hp|split; [exact Hrec|split; assumption]].
Qed.

(** X7.  Nothing comes from nowhere: an entry of the answer of
    [getFolderTags] is a direct tag of the folder, given back as it is
    stored, or it is marked inherited and carries the name of a tag in the
    record of a strict ancestor. *)
Theorem getFolderTags_origin (st : FolderTagsSettings) (C : jstring) (n : nat)
    (e : FolderTag) :
  hd_error C <> Some SLASH ->
  In e (fst (getFolderTags st C n)) ->
  In e (direct_tags st C)
  \/ (inherited e = true
      /\ exists A rec t, is_ancestor A C /\ find_record st A = Some rec
                         /\ In t (tags rec) /\ tag t = tag e).
Proof.
  intros HC He.
  unfold getFolderTags in He; rewrite bind_run in He; simpl in He.
  apply new_Set_incl, in_app_or in He as [He|He]; [left; exact He|right].
  pose proof (inherit_loop_inv st (removelast (split SLASH C)) [] [] n n
                (fresh_list_nil _ _) (le_n _)) as ([Hall _] & _).
  rewrite Forall_forall in Hall.
  split; [apply (Hall e He)|].
  apply inherit_loop_origin in He as [(t & [] & _)|(p & rec & t & Hp & Hrec & Ht & Et)].
  exists p, rec, t; split; [apply visited_ancestor; assumption|].
  split; [exact Hrec|split; assumption].
Qed.

Lemma getFolderTags_origin_witness :
  In (mkFolderTag 5 (lit "mid") true)
     (direct_tags chain_settings (lit "a/b/c"))
  \/ (inherited (mkFolderTag 5 (lit "mid") true) = true
      /\ exists A rec t, is_ancestor A (lit "a/b/c")
                         /\ find_record chain_settings A = Some rec
                         /\ In t (tags rec)
                         /\ tag t = tag (mkFolderTag 5 (lit "mid") true)).
Proof.
  apply (getFolderTags_origin chain_settings (lit "a/b/c") 3).
  - discriminate.
  - right; right; left; reflexivity.
Defined.

Lemma not_ancestor_neq (q C : jstring) :
  q <> C -> str_eqb q C = false.
Proof.
  intros H; destruct (str_eqb q C) eqn:E; [|reflexivity].
  apply str_eqb_eq in E; congruence.
Qed.

(** X8.  Tags flow down only.  Saving the tags of a folder, or removing
    its record, changes nothing in what is resolved for a folder that is
    neither that folder nor below it. *)
Theorem getFolderTags_unaffected (st : FolderTagsSettings) (q C : jstring)
    (ts : list FolderTag) (n : nat) :
  hd_error C <> Some SLASH ->
  q <> C -> ~ is_ancestor q C ->
  getFolderTags (saveFolderTags st q ts) C n = getFolderTags st C n
  /\ getFolderTags (remove_record st q) C n = getFolderTags st C n.
Proof.
  intros HC Hne Hnot.
  assert (Hfind : forall A, A = C \/ is_ancestor A C -> str_eqb q A = false).
  { intros A HA; apply not_ancestor_neq; intros ->.
    destruct HA as [->|HA]; [exact (Hne eq_refl)|exact (Hnot HA)]. }
  split; apply resolve_agree; try exact HC.
  - rewrite find_record_save, (Hfind C (or_introl eq_refl)); reflexivity.
  - intros A HA; rewrite find_record_save, (Hfind A (or_intror HA)); reflexivity.
  - unfold remove_record, find_record; simpl.
    rewrite find_filter_path, (Hfind C (or_introl eq_refl)); reflexivity.
  - intros A HA; unfold remove_record, find_record; simpl.
    rewrite find_filter_path, (Hfind A (or_intror HA)); reflexivity.
Qed.

Lemma getFolderTags_unaffected_witness :
  getFolderTags (saveFolderTags chain_settings (lit "a/x") []) (lit "a/b") 3
  = getFolderTags chain_settings (lit "a/b") 3
  /\ getFolderTags (remove_record chain_settings (lit "a/x")) (lit "a/b") 3
     = getFolderTags chain_settings (lit "a/b") 3.
Proof.
  apply getFolderTags_unaffected.
  - discriminate.
  - discriminate.
  - intros [_ (rest & E)]; discriminate E.
Defined.

(** X9.  Tags saved on a folder reach every folder below it: each is in
    the answer for the descendant, marked inherited. *)
Theorem saved_tags_inherited (st : FolderTagsSettings) (A C : jstring)
    (ts : list FolderTag) (next : nat) :
  heap_ok (saveFolderTags st A ts) next = true ->
  is_ancestor A C ->
  forall t, In t ts ->
    exists e, In e (fst (getFolderTags (saveFolderTags st A ts) C next))
              /\ tag e = tag t /\ inherited e = true.
Proof.
  intros Hok Hanc t Ht.
  apply (ancestor_tags_inherited (saveFolderTags st A ts) A C
           {| path := A; tags := ts |} next Hok Hanc); [|exact Ht].
  rewrite find_record_save, str_eqb_refl; reflexivity.
Qed.

Lemma saved_tags_inherited_witness :
  exists e,
    In e (fst (getFolderTags
                 (saveFolderTags chain_settings (lit "a") [mkFolderTag 7 (lit "new") false])
                 (lit "a/b/c") 8))
    /\ tag e = tag (mkFolderTag 7 (lit "new") false) /\ inherited e = true.
Proof.
  apply (saved_tags_inherited chain_settings (lit "a") (lit "a/b/c")
           [mkFolderTag 7 (lit "new") false] 8).
  - reflexivity.
  - split; [discriminate|exists (lit "b/c"); reflexivity].
  - left; reflexivity.
Defined.

(** ** The two patterns *)

Lemma strip_prefix_spec (p s rest : jstring) :
  strip_prefix p s = Some rest <-> s = p ++ rest.
Proof.
  revert s; induction p as [|x p IH]; intros s; simpl.
  - split; [intros H; injection H as ->; reflexivity|intros ->; reflexivity].
  - destruct s as [|y s]; [split; discriminate|].
    destruct (N.eqb_spec x y) as [->|Hne].
    + rewrite IH; split; [intros ->; reflexivity|intros H; injection H as ->; reflexivity].
    + split; [discriminate|intros H; injection H as -> _; congruence].
Qed.

Lemma startsWith_nil (s : jstring) : startsWith s [] = true.
Proof. destruct s; reflexivity. Qed.

Lemma startsWith_spec (s p : jstring) :
  startsWith s p = true <-> exists rest, s = p ++ rest.
Proof.
  revert s; induction p as [|x p IH]; intros s.
  - rewrite startsWith_nil; split; [exists s; reflexivity|reflexivity].
  - destruct s as [|y s]; simpl.
    + split; [discriminate|intros (rest & H); discriminate H].
    + rewrite andb_true_iff, N.eqb_eq, IH; split.
      * intros [-> (rest & ->)]; exists rest; reflexivity.
      * intros (rest & H); injection H as -> ->; split; [reflexivity|exists rest; reflexivity].
Qed.

Lemma includes_spec (s sub : jstring) :
  includes s sub = true <-> exists pre post, s = pre ++ sub ++ post.
Proof.
  induction s as [|c s IH].
  - change (includes [] sub) with (startsWith [] sub || false).
    rewrite orb_false_r, startsWith_spec; split.
    + intros (rest & H); exists [], rest; exact H.
    + intros (pre & post & H).
      destruct pre; [exists post; exact H|discriminate H].
  - change (includes (c :: s) sub) with (startsWith (c :: s) sub || includes s sub).
    rewrite orb_true_iff, startsWith_spec, IH; split.
    + intros [(rest & H)|(pre & post & ->)].
      * exists [], rest; exact H.
      * exists (c :: pre), post; reflexivity.
    + intros (pre & post & H).
      destruct pre as [|d pre]; [left; exists post; exact H|].
      injection H as -> ->; right; exists pre, post; reflexivity.
Qed.

(** The closing delimiter cannot begin inside the block and end in the
    delimiter: after a line feed and fewer than three dashes comes the line
    feed of the delimiter, not a dash. *)
Lemma no_straddle (b after : jstring) :
  b <> [] -> startsWith b (lit "\n---") = false ->
  strip_prefix (lit "\n---") (b ++ lit "\n---" ++ after) = None.
Proof.
  intros Hb Hs.
  destruct (strip_prefix (lit "\n---") (b ++ lit "\n---" ++ after)) as [rest|] eqn:E;
    [|reflexivity].
  exfalso; apply strip_prefix_spec in E.
  assert (Hs' : ~ exists r, b = lit "\n---" ++ r).
  { intros H; apply startsWith_spec in H; congruence. }
  destruct b as [|c1 [|c2 [|c3 [|c4 b]]]]; try congruence;
    try (simpl in E; discriminate E).
  apply Hs'; exists b.
  simpl in E; injection E as -> -> -> -> _; reflexivity.
Qed.

Lemma find_close_sound (s b after : jstring) :
  find_close s = Some (b, after) ->
  s = b ++ lit "\n---" ++ after /\ includes b (lit "\n---") = false.
Proof.
  revert b; induction s as [|c s IH]; intros b H.
  - simpl in H; discriminate.
  - unfold find_close in H; fold find_close in H.
    destruct (strip_prefix (lit "\n---") (c :: s)) as [rest|] eqn:E.
    + injection H as <- <-; apply strip_prefix_spec in E; split; [exact E|reflexivity].
    + destruct (find_close s) as [[b' rest]|] eqn:Ef; [|discriminate].
      injection H as <- <-.
      destruct (IH b' eq_refl) as [-> Hinc]; split; [reflexivity|].
      change (includes (c :: b') (lit "\n---"))
        with (startsWith (c :: b') (lit "\n---") || includes b' (lit "\n---")).
      rewrite Hinc, orb_false_r.
      destruct (startsWith (c :: b') (lit "\n---")) eqn:Es; [|reflexivity].
      apply startsWith_spec in Es as (r & Er).
      assert (strip_prefix (lit "\n---") (c :: b' ++ lit "\n---" ++ rest)
              = Some (r ++ lit "\n---" ++ rest)); [|congruence].
      apply strip_prefix_spec.
      change (c :: b' ++ lit "\n---" ++ rest) with ((c :: b') ++ lit "\n---" ++ rest).
      rewrite Er, <- app_assoc; reflexivity.
Qed.

Lemma find_close_complete (b after : jstring) :
  includes b (lit "\n---") = false ->
  find_close (b ++ lit "\n---" ++ after) = Some (b, after).
Proof.
  induction b as [|c b IH]; intros H.
  - reflexivity.
  - change (includes (c :: b) (lit "\n---"))
      with (startsWith (c :: b) (lit "\n---") || includes b (lit "\n---")) in H.
    apply orb_false_iff in H as [Hs Hinc].
    change ((c :: b) ++ lit "\n---" ++ after) with (c :: (b ++ lit "\n---" ++ after)).
    unfold find_close; fold find_close.
    change (c :: (b ++ lit "\n---" ++ after)) with ((c :: b) ++ lit "\n---" ++ after) at 1.
    rewrite (no_straddle (c :: b) after) by (discriminate || exact Hs).
    rewrite (IH Hinc); reflexivity.
Qed.

(** X10.  The block the patcher works on: a text has a frontmatter block
    exactly when it opens with three dashes and a line feed and has a line
    feed and three dashes further on; the block runs up to the first of
    these, and the rest of the text is what follows it. *)
Theorem frontmatter_match_first (content block after : jstring) :
  frontmatter_match content = Some (block, after)
  <-> content = lit "---\n" ++ block ++ lit "\n---" ++ after
      /\ includes block (lit "\n---") = false.
Proof.
  unfold frontmatter_match; split.
  - destruct (strip_prefix (lit "---\n") content) as [s|] eqn:E; [|discriminate].
    intros H; apply find_close_sound in H as [-> Hinc].
    apply strip_prefix_spec in E; split; assumption.
  - intros [-> Hinc].
    replace (strip_prefix (lit "---\n") (lit "---\n" ++ block ++ lit "\n---" ++ after))
      with (Some (block ++ lit "\n---" ++ after))
      by (symmetry; apply strip_prefix_spec; reflexivity).
    apply find_close_complete; exact Hinc.
Qed.

Lemma getSubstitution_plain (matched before after : jstring) (captures : list jstring)
    (template : jstring) :
  has_char DOLLAR template = false ->
  getSubstitution matched before after captures template = template.
Proof.
  induction template as [|c r IH]; intros H; [reflexivity|].
  change (has_char DOLLAR (c :: r)) with (N.eqb DOLLAR c || has_char DOLLAR r) in H.
  apply orb_false_iff in H as [Hc Hr].
  cbn -[N.eqb]; rewrite N.eqb_sym, Hc; cbn -[N.eqb].
  rewrite (IH Hr); reflexivity.
Qed.

Lemma has_char_app (c : char) (a b : jstring) :
  has_char c (a ++ b) = has_char c a || has_char c b.
Proof. unfold has_char; apply existsb_app. Qed.

(** ** Content patcher *)

Lemma listed_name_cached (fm : bool) (listed : list jstring) (t : FolderTag) :
  In (hashtag t) listed ->
  existsb (str_eqb (tag t))
    (cached_names (Some {| frontmatter := fm; md_tags := Some listed |})) = true.
Proof.
  intros Hin; simpl.
  destruct (Set_fold_complete str_eqb (map substring_1 listed) [] (tag t))
    as (y & Hy & Ey).
  - change (tag t) with (substring_1 (hashtag t)); apply in_map; exact Hin.
  - apply existsb_exists; exists y; split; [exact Hy|].
    destruct Ey as [->|Ey]; [apply str_eqb_refl|exact Ey].
Qed.

Lemma filter_none {A} (f : A -> bool) (l : list A) :
  (forall x, In x l -> f x = false) -> filter f l = [].
Proof.
  induction l as [|a l IH]; intros H; [reflexivity|].
  simpl; rewrite (H a (or_introl eq_refl)).
  apply IH; intros x Hx; apply H; right; exact Hx.
Qed.

(** X11.  Tags the file carries are not added again: when the cache lists
    the hashtag of every tag of the set, [addTagsToFileContent] writes
    nothing, with or without frontmatter. *)
Theorem add_listed_no_write (content : jstring) (fm : bool) (listed : list jstring)
    (newTags : list FolderTag) :
  (forall t, In t newTags -> In (hashtag t) listed) ->
  addTagsToFileContent content
    (Some {| frontmatter := fm; md_tags := Some listed |}) newTags
  = NoWrite.
Proof.
  intros H; rewrite addTagsToFileContent_place.
  destruct (is_nil newTags); [reflexivity|].
  cbv zeta; rewrite filter_none; [reflexivity|].
  intros t Ht; rewrite (listed_name_cached fm listed t (H t Ht)); reflexivity.
Qed.

Lemma add_listed_no_write_witness :
  addTagsToFileContent (lit "Body #a and #b")
    (Some {| frontmatter := false; md_tags := Some [lit "#a"; lit "#b"] |})
    [mkFolderTag 0 (lit "b") false; mkFolderTag 1 (lit "a") true]
  = NoWrite.
Proof.
  apply add_listed_no_write.
  intros t [<-|[<-|[]]]; simpl; auto.
Defined.

Lemma trimEnd_split (s : jstring) :
  exists ws, s = trimEnd s ++ ws /\ forallb is_space ws = true.
Proof.
  induction s as [|c s (ws & E & Hws)]; [exists []; split; reflexivity|].
  simpl; destruct (trimEnd s) as [|d r] eqn:Et.
  - simpl in E; subst s.
    destruct (is_space c) eqn:Ec.
    + exists (c :: ws); split; [reflexivity|simpl; rewrite Ec; exact Hws].
    + exists ws; split; [reflexivity|exact Hws].
  - exists ws; split; [rewrite E at 1; reflexivity|exact Hws].
Qed.

Lemma trimEnd_last (s x : jstring) (c : char) :
  trimEnd s = x ++ [c] -> is_space c = false.
Proof.
  revert x; induction s as [|a s IH]; intros x H; simpl in H.
  - destruct x; discriminate.
  - destruct (trimEnd s) as [|d r] eqn:Et.
    + destruct (is_space a) eqn:Ea; [destruct x; discriminate|].
      destruct x as [|y [|z x]]; try discriminate.
      injection H as <-; exact Ea.
    + destruct x as [|y x]; [discriminate|].
      injection H as _ H; apply (IH x H).
Qed.

(** X12.  A file for which the cache reports no frontmatter gets the tags
    the cache does not list as hashtags at its end: the text is kept up to
    its trailing white space, then come two line feeds and the hashtags,
    one space between them. *)
Theorem add_inline_append (content : jstring) (metadata : option CachedMetadata)
    (newTags : list FolderTag) :
  has_frontmatter metadata = false ->
  let tagsToAdd :=
    filter (fun t => negb (existsb (str_eqb (tag t)) (cached_names metadata))) newTags in
  tagsToAdd <> [] ->
  exists body ws,
    content = body ++ ws
    /\ forallb is_space ws = true
    /\ (forall x c, body = x ++ [c] -> is_space c = false)
    /\ addTagsToFileContent content metadata newTags
       = Write (body ++ lit "\n\n" ++ join (lit " ") (map hashtag tagsToAdd)).
Proof.
  intros Hfm tagsToAdd Hne.
  destruct (trimEnd_split content) as (ws & E & Hws).
  exists (trimEnd content), ws.
  split; [exact E|split; [exact Hws|split; [apply trimEnd_last|]]].
  rewrite addTagsToFileContent_place.
  destruct newTags as [|t l]; [exfalso; apply Hne; reflexivity|].
  cbv zeta; fold tagsToAdd; simpl is_nil; cbv iota.
  destruct tagsToAdd; [congruence|].
  simpl is_nil; cbv iota; unfold place_tags; rewrite Hfm; reflexivity.
Qed.

Lemma add_inline_append_witness :
  exists body ws,
    lit "Some content \n" = body ++ ws
    /\ forallb is_space ws = true
    /\ (forall x c, body = x ++ [c] -> is_space c = false)
    /\ addTagsToFileContent (lit "Some content \n") None
         [mkFolderTag 0 (lit "newtag") false]
       = Write (body ++ lit "\n\n"
                ++ join (lit " ") (map hashtag [mkFolderTag 0 (lit "newtag") false])).
Proof.
  apply (add_inline_append (lit "Some content \n") None
           [mkFolderTag 0 (lit "newtag") false]).
  - reflexivity.
  - discriminate.
Defined.

(** X13.  A file with a frontmatter block that the cache reports gets the
    tags in the block and nowhere else.  When the new block has no dollar
    sign in it, what is written is the opening dashes, the new block, the
    closing dashes right after it, and then the text that followed the old
    block, untouched. *)
Theorem add_frontmatter_exact (content block after : jstring)
    (metadata : option CachedMetadata) (newTags : list FolderTag) :
  has_frontmatter metadata = true ->
  frontmatter_match content = Some (block, after) ->
  let tagsToAdd :=
    filter (fun t => negb (existsb (str_eqb (tag t)) (cached_names metadata))) newTags in
  let newFrontmatter :=
    stringifyYaml
      (obj_set (parseYaml block) (lit "tags")
         (VArr (new_Set same_elem (tags_or_empty (parseYaml block) ++ map EObj tagsToAdd)))) in
  tagsToAdd <> [] ->
  has_char DOLLAR newFrontmatter = false ->
  content = lit "---\n" ++ block ++ lit "\n---" ++ after
  /\ addTagsToFileContent content metadata newTags
     = Write (lit "---\n" ++ newFrontmatter ++ lit "---" ++ after).
Proof.
  intros Hfm Hm tagsToAdd newFrontmatter Hne Hplain.
  split.
  { unfold frontmatter_match in Hm.
    destruct (strip_prefix (lit "---\n") content) as [s|] eqn:E; [|discriminate].
    apply find_close_sound in Hm as [-> _].
    apply strip_prefix_spec in E; exact E. }
  rewrite addTagsToFileContent_place.
  destruct newTags as [|t l]; [exfalso; apply Hne; reflexivity|].
  cbv zeta; fold tagsToAdd; simpl is_nil; cbv iota.
  destruct tagsToAdd as [|u r] eqn:Et; [congruence|].
  simpl is_nil; cbv iota; unfold place_tags; rewrite Hfm, Hm.
  unfold replace_frontmatter; rewrite Hm.
  fold newFrontmatter.
  rewrite getSubstitution_plain.
  - rewrite <- !app_assoc; reflexivity.
  - rewrite !has_char_app, Hplain; reflexivity.
Qed.

Lemma add_frontmatter_exact_witness :
  lit "---\ntitle: T\n---\nBody" = lit "---\n" ++ lit "title: T" ++ lit "\n---" ++ lit "\nBody"
  /\ addTagsToFileContent (lit "---\ntitle: T\n---\nBody") with_frontmatter
       [mkFolderTag 0 (lit "c") false]
     = Write (lit "---\ntitle: T\ntags: [[object Object]]---\nBody").
Proof.
  apply (add_frontmatter_exact (lit "---\ntitle: T\n---\nBody") (lit "title: T")
           (lit "\nBody") with_frontmatter [mkFolderTag 0 (lit "c") false]).
  - reflexivity.
  - reflexivity.
  - discriminate.
  - reflexivity.
Defined.

Lemma replace_no_match (alts : list jstring) (s : jstring) :
  (forall pre s', s = pre ++ s' -> match_alt alts s' = None) ->
  replace_tag_matches alts 0 s = s.
Proof.
  induction s as [|c r IH]; intros H; [reflexivity|].
  simpl replace_tag_matches.
  assert (E : match_here alts (c :: r) = None).
  { unfold match_here.
    rewrite (H (firstn (count_space (c :: r)) (c :: r))
               (skipn (count_space (c :: r)) (c :: r)));
      [reflexivity|symmetry; apply firstn_skipn]. }
  rewrite E; f_equal; apply IH.
  intros pre s' ->; apply (H (c :: pre)); reflexivity.
Qed.

Lemma remove_untouched (content : jstring) (metadata : option CachedMetadata)
    (tagsForRemoval : list FolderTag) :
  has_frontmatter metadata = false \/ frontmatter_match content = None ->
  forallb (fun t => literal_name (tag t)) tagsForRemoval = true ->
  replace_tag_matches (map hashtag tagsForRemoval) 0 content = content ->
  removeTagsFromFileContent content metadata tagsForRemoval = Some NoWrite.
Proof.
  intros Hfm Hlit Hrep; unfold removeTagsFromFileContent.
  destruct (is_nil tagsForRemoval); [reflexivity|].
  assert (E : remove_from_frontmatter content metadata tagsForRemoval = content).
  { unfold remove_from_frontmatter.
    destruct Hfm as [-> | Hno]; [reflexivity|].
    rewrite Hno; destruct (has_frontmatter metadata); reflexivity. }
  rewrite E, Hlit; simpl negb; cbv iota.
  destruct (truthy _); rewrite ?Hrep, str_eqb_refl; reflexivity.
Qed.

(** X14.  Removing tags a file does not carry leaves the file alone: when
    no frontmatter block is patched and the hashtag of no tag of the set
    occurs in the text, [removeTagsFromFileContent] writes nothing. *)
Theorem remove_absent_no_write (content : jstring) (metadata : option CachedMetadata)
    (tagsForRemoval : list FolderTag) :
  has_frontmatter metadata = false \/ frontmatter_match content = None ->
  forallb (fun t => literal_name (tag t)) tagsForRemoval = true ->
  (forall t, In t tagsForRemoval -> includes content (hashtag t) = false) ->
  removeTagsFromFileContent content metadata tagsForRemoval = Some NoWrite.
Proof.
  intros Hfm Hlit Habsent.
  apply remove_untouched; [exact Hfm|exact Hlit|].
  apply replace_no_match; intros pre s' ->.
  assert (Hall : forall a, In a (map hashtag tagsForRemoval) ->
            strip_prefix a s' = None).
  { intros a Ha; apply in_map_iff in Ha as (t & <- & Ht).
    destruct (strip_prefix (hashtag t) s') as [rest|] eqn:E; [|reflexivity].
    apply strip_prefix_spec in E; subst s'.
    assert (includes (pre ++ hashtag t ++ rest) (hashtag t) = true)
      by (apply includes_spec; exists pre, rest; reflexivity).
    rewrite (Habsent t Ht) in H; discriminate. }
  induction (map hashtag tagsForRemoval) as [|a alts IH]; [reflexivity|].
  simpl; rewrite (Hall a (or_introl eq_refl)).
  apply IH; intros b Hb; apply Hall; right; exact Hb.
Qed.

Lemma remove_absent_no_write_witness :
  removeTagsFromFileContent (lit "Notes on #rust and #go") None
    [mkFolderTag 0 (lit "python") false; mkFolderTag 1 (lit "java") false]
  = Some NoWrite.
Proof.
  apply remove_absent_no_write.
  - left; reflexivity.
  - reflexivity.
  - intros t [<-|[<-|[]]]; reflexivity.
Defined.

Lemma only_in_longer_at (a pre s' : jstring) :
  only_in_longer a (pre ++ s') = true ->
  match strip_prefix a s' with
  | Some (w :: _) => is_word w = true
  | Some [] => False
  | None => True
  end.
Proof.
  induction pre as [|c pre IH]; intros H.
  - destruct s' as [|d r]; simpl in H; apply andb_true_iff in H as [H _];
      destruct (strip_prefix a _) as [[|w rest]|]; auto; discriminate.
  - apply IH.
    change ((c :: pre) ++ s') with (c :: (pre ++ s')) in H.
    simpl in H; apply andb_true_iff in H as [_ H]; exact H.
Qed.

(** X15.  A tag whose name ends in a word character, and has no
    character with a meaning in a pattern, is removed as a whole word only.
    Where no frontmatter block is patched (the cache reports none, or the
    text has none) and every occurrence of the hashtag in the text is
    followed by a word character, so that it is the beginning of a longer
    tag, removing the tag writes nothing. *)
Theorem remove_keeps_longer_tags (content : jstring) (metadata : option CachedMetadata)
    (t : FolderTag) (x : jstring) (c : char) :
  has_frontmatter metadata = false \/ frontmatter_match content = None ->
  literal_name (tag t) = true ->
  tag t = x ++ [c] -> is_word c = true ->
  only_in_longer (hashtag t) content = true ->
  removeTagsFromFileContent content metadata [t] = Some NoWrite.
Proof.
  intros Hfm Hlit Hname Hc Hocc.
  apply remove_untouched; [exact Hfm|simpl; rewrite Hlit; reflexivity|].
  apply replace_no_match; intros pre s' ->.
  apply only_in_longer_at in Hocc.
  change (map hashtag [t]) with [hashtag t]; cbn [match_alt].
  destruct (strip_prefix (hashtag t) s') as [[|w rest]|]; [destruct Hocc| |reflexivity].
  unfold hashtag at 1; rewrite Hname.
  change (HASH :: x ++ [c]) with ((HASH :: x) ++ [c]); rewrite last_last.
  unfold word_boundary; cbn [hd_error]; rewrite Hc, Hocc; reflexivity.
Qed.

Lemma remove_keeps_longer_tags_witness :
  removeTagsFromFileContent (lit "see #tagline and #tags") None
    [mkFolderTag 0 (lit "tag") false]
  = Some NoWrite.
Proof.
  apply (remove_keeps_longer_tags (lit "see #tagline and #tags") None
           (mkFolderTag 0 (lit "tag") false) (lit "ta") 103%N); reflexivity || (left; reflexivity).
Defined.

(** ** Minimal frontmatter codec *)

Lemma has_char_join (c : char) (sep : jstring) (items : list jstring) :
  has_char c sep = false ->
  (forall i, In i items -> has_char c i = false) ->
  has_char c (join sep items) = false.
Proof.
  intros Hsep; induction items as [|i r IH]; intros H; [reflexivity|].
  destruct r as [|j r]; [apply H; left; reflexivity|].
  change (join sep (i :: j :: r)) with (i ++ sep ++ join sep (j :: r)).
  rewrite !has_char_app, Hsep, (H i (or_introl eq_refl)), IH; [reflexivity|].
  intros x Hx; apply H; right; exact Hx.
Qed.

Lemma split_join (sep : char) (lines : list jstring) :
  lines <> [] ->
  (forall l, In l lines -> has_char sep l = false) ->
  split sep (join [sep] lines) = lines.
Proof.
  induction lines as [|l r IH]; intros Hne H; [congruence|].
  destruct r as [|m r]; [apply split_no_sep, H; left; reflexivity|].
  change (join [sep] (l :: m :: r)) with (l ++ sep :: join [sep] (m :: r)).
  rewrite split_app_sep, split_no_sep by (apply H; left; reflexivity).
  rewrite IH; [reflexivity|discriminate|].
  intros x Hx; apply H; right; exact Hx.
Qed.

Lemma trimEnd_snoc (x : jstring) (c : char) :
  is_space c = false -> trimEnd (x ++ [c]) = x ++ [c].
Proof.
  intros Hc; induction x as [|a x IH]; simpl; [rewrite Hc; reflexivity|].
  rewrite IH; destruct (x ++ [c]) eqn:E; [destruct x; discriminate|reflexivity].
Qed.

Lemma trim_space_cons (s : jstring) : trim (SPACE :: s) = trim s.
Proof. reflexivity. Qed.

Lemma plain_text_spec (s : jstring) :
  plain_text s = true ->
  trim s = s /\ has_char LF s = false /\ has_char COLON s = false.
Proof.
  unfold plain_text; intros H.
  apply andb_true_iff in H as [H Hc]; apply andb_true_iff in H as [Ht Hl].
  apply str_eqb_eq in Ht; apply negb_true_iff in Hl, Hc; auto.
Qed.

Lemma item_ok_spec (l : list elem) :
  forallb item_ok l = true ->
  l = map EStr (map show_elem l)
  /\ forall i, In i (map show_elem l) ->
       trim i = i /\ has_char LF i = false /\ has_char COLON i = false
       /\ has_char COMMA i = false.
Proof.
  induction l as [|e l IH]; intros H; [split; [reflexivity|intros i []]|].
  simpl in H; apply andb_true_iff in H as [He Hl].
  destruct (IH Hl) as [El Hall].
  destruct e as [s|t]; [|discriminate]; simpl in He.
  apply andb_true_iff in He as [Hp Hc]; apply negb_true_iff in Hc.
  destruct (plain_text_spec s Hp) as (H1 & H2 & H3).
  split; [simpl; f_equal; exact El|].
  intros i [<-|Hi]; [auto|apply Hall; exact Hi].
Qed.

Lemma split_comma_items (items : list jstring) :
  items <> [] ->
  (forall i, In i items -> trim i = i /\ has_char COMMA i = false) ->
  map trim (split COMMA (join (lit ", ") items)) = items.
Proof.
  induction items as [|i r IH]; intros Hne H; [congruence|].
  destruct (H i (or_introl eq_refl)) as [Ht Hc].
  destruct r as [|j r].
  - simpl join; rewrite split_no_sep by exact Hc; simpl; rewrite Ht; reflexivity.
  - change (join (lit ", ") (i :: j :: r))
      with (i ++ COMMA :: SPACE :: join (lit ", ") (j :: r)).
    rewrite split_app_sep, split_no_sep by exact Hc.
    assert (IH' : map trim (split COMMA (join (lit ", ") (j :: r))) = j :: r).
    { apply IH; [discriminate|intros x Hx; apply H; right; exact Hx]. }
    change (split COMMA (SPACE :: join (lit ", ") (j :: r)))
      with (match split COMMA (join (lit ", ") (j :: r)) with
            | [] => [[SPACE]]
            | p :: ps => (SPACE :: p) :: ps
            end).
    destruct (split COMMA (join (lit ", ") (j :: r))) as [|p ps] eqn:E;
      [exfalso; exact (split_not_nil _ _ E)|].
    simpl map in *; rewrite Ht, trim_space_cons, IH'; reflexivity.
Qed.

Lemma endsWith_snoc (x : jstring) (c : char) : endsWith (x ++ [c]) [c] = true.
Proof.
  unfold endsWith; rewrite rev_app_distr; simpl.
  rewrite N.eqb_refl, startsWith_nil; reflexivity.
Qed.

(** A line written by [stringifyYaml] is read back as the entry it was
    written from. *)
Lemma parse_stringified_entry (o : object) (k : jstring) (v : value) :
  key_ok k = true -> value_ok v = true ->
  parse_line o (stringify_entry (k, v)) = obj_set o k v.
Proof.
  unfold key_ok; intros Hk Hv.
  apply andb_true_iff in Hk as [Hk _]; apply andb_true_iff in Hk as [Hk Hproto].
  apply andb_true_iff in Hk as [Hne Hplain].
  destruct (plain_text_spec k Hplain) as (Ktrim & _ & Kcolon).
  apply negb_true_iff in Hproto.
  unfold parse_line, stringify_entry; simpl fst; simpl snd.
  destruct v as [s|l].
  - unfold value_ok, scalar_ok in Hv.
    apply andb_true_iff in Hv as [Hs Hshape]; apply negb_true_iff in Hshape.
    destruct (plain_text_spec s Hs) as (Strim & _ & Scolon).
    change (k ++ lit ": " ++ s) with (k ++ COLON :: SPACE :: s).
    rewrite split_app_sep, (split_no_sep COLON k Kcolon), (split_no_sep COLON (SPACE :: s))
      by exact Scolon.
    simpl map; rewrite Ktrim, trim_space_cons, Strim, Hne.
    simpl join; rewrite Strim, Hshape.
    unfold obj_assign; rewrite Hproto; reflexivity.
  - unfold value_ok in Hv; apply andb_true_iff in Hv as [Hnil Hitems].
    destruct (item_ok_spec l Hitems) as [El Hall].
    set (items := map show_elem l) in *.
    set (body := join (lit ", ") items).
    assert (Hbody : has_char COLON body = false).
    { apply has_char_join; [reflexivity|intros i Hi; apply (Hall i Hi)]. }
    change (k ++ lit ": [" ++ body ++ lit "]")
      with (k ++ COLON :: (SPACE :: 91%N :: body ++ [93%N])).
    assert (Hrest : has_char COLON (SPACE :: 91%N :: body ++ [93%N]) = false).
    { change (SPACE :: 91%N :: body ++ [93%N]) with ([SPACE; 91%N] ++ body ++ [93%N]).
      rewrite !has_char_app, Hbody; reflexivity. }
    rewrite split_app_sep, (split_no_sep COLON k Kcolon), (split_no_sep COLON _ Hrest).
    simpl map; rewrite Ktrim, Hne.
    assert (Hval : trim (SPACE :: 91%N :: body ++ [93%N]) = 91%N :: body ++ [93%N]).
    { unfold trim; simpl trimStart.
      change (91%N :: body ++ [93%N]) with ((91%N :: body) ++ [93%N]).
      apply trimEnd_snoc; reflexivity. }
    rewrite Hval; simpl join.
    assert (Hval' : trim (91%N :: body ++ [93%N]) = 91%N :: body ++ [93%N]).
    { unfold trim; simpl trimStart.
      change (91%N :: body ++ [93%N]) with ((91%N :: body) ++ [93%N]).
      apply trimEnd_snoc; reflexivity. }
    rewrite Hval'.
    assert (Hstart : startsWith (91%N :: body ++ [93%N]) (lit "[") = true).
    { change (startsWith (91%N :: body ++ [93%N]) (lit "["))
        with (N.eqb 91 91 && startsWith (body ++ [93%N]) []).
      rewrite startsWith_nil; reflexivity. }
    assert (Hend : endsWith (91%N :: body ++ [93%N]) (lit "]") = true).
    { change (91%N :: body ++ [93%N]) with ((91%N :: body) ++ [93%N]).
      apply endsWith_snoc. }
    rewrite Hstart, Hend; simpl andb; cbv iota.
    unfold slice_1_m1; simpl tl; rewrite removelast_last.
    rewrite <- (map_map trim EStr).
    unfold body; rewrite split_comma_items.
    + rewrite <- El; unfold obj_assign; rewrite Hproto; reflexivity.
    + unfold items; destruct l; [discriminate|discriminate].
    + intros i Hi; destruct (Hall i Hi) as (H1 & _ & _ & H4); split; assumption.
Qed.

Lemma entries_named (o : object) :
  (forall kv, In kv o -> array_index (fst kv) = None) -> entries o = o.
Proof.
  intros H; unfold entries.
  assert (E1 : index_entries o = []).
  { induction o as [|kv r IH]; [reflexivity|].
    simpl; rewrite (H kv (or_introl eq_refl)).
    apply IH; intros x Hx; apply H; right; exact Hx. }
  assert (E2 : named_entries o = o).
  { unfold named_entries; induction o as [|kv r IH]; [reflexivity|].
    simpl; rewrite (H kv (or_introl eq_refl)); f_equal.
    apply IH; [intros x Hx; apply H; right; exact Hx|].
    simpl in E1; rewrite (H kv (or_introl eq_refl)) in E1; exact E1. }
  rewrite E1, E2; reflexivity.
Qed.

Lemma obj_set_fresh (o : object) (k : jstring) (v : value) :
  (forall kv, In kv o -> str_eqb (fst kv) k = false) ->
  obj_set o k v = o ++ [(k, v)].
Proof.
  induction o as [|[k' v'] r IH]; intros H; [reflexivity|].
  pose proof (H (k', v') (or_introl eq_refl)) as E; simpl in E.
  simpl; rewrite E; f_equal.
  apply IH; intros kv Hkv; apply H; right; exact Hkv.
Qed.

Lemma str_eqb_sym (a b : jstring) : str_eqb a b = str_eqb b a.
Proof.
  revert b; induction a as [|x a IH]; intros [|y b]; simpl; try reflexivity.
  rewrite N.eqb_sym, IH; reflexivity.
Qed.

Lemma codec_ok_cons (kv : jstring * value) (r : object) :
  codec_ok (kv :: r) = true ->
  key_ok (fst kv) = true /\ value_ok (snd kv) = true
  /\ (forall kv', In kv' r -> str_eqb (fst kv') (fst kv) = false)
  /\ codec_ok r = true.
Proof.
  simpl; intros H.
  apply andb_true_iff in H as [H Hr]; apply andb_true_iff in H as [H Hfresh].
  apply andb_true_iff in H as [Hk Hv].
  repeat split; try assumption.
  intros kv' Hin; apply negb_true_iff in Hfresh.
  destruct (str_eqb (fst kv') (fst kv)) eqn:E; [|reflexivity].
  assert (existsb (fun x => str_eqb (fst x) (fst kv)) r = true); [|congruence].
  apply existsb_exists; exists kv'; split; assumption.
Qed.

Lemma stringified_one_line (k : jstring) (v : value) :
  key_ok k = true -> value_ok v = true ->
  has_char LF (stringify_entry (k, v)) = false.
Proof.
  unfold key_ok; intros Hk Hv.
  apply andb_true_iff in Hk as [Hk _]; apply andb_true_iff in Hk as [Hk _].
  apply andb_true_iff in Hk as [_ Hplain].
  destruct (plain_text_spec k Hplain) as (_ & Klf & _).
  unfold stringify_entry; simpl fst; simpl snd.
  destruct v as [s|l].
  - unfold value_ok, scalar_ok in Hv; apply andb_true_iff in Hv as [Hs _].
    destruct (plain_text_spec s Hs) as (_ & Slf & _).
    rewrite !has_char_app, Klf, Slf; reflexivity.
  - unfold value_ok in Hv; apply andb_true_iff in Hv as [_ Hitems].
    destruct (item_ok_spec l Hitems) as [_ Hall].
    rewrite !has_char_app, Klf, has_char_join; [reflexivity|reflexivity|].
    intros i Hi; apply (Hall i Hi).
Qed.

Lemma parse_stringified (o2 : object) :
  forall o1,
    codec_ok o2 = true ->
    (forall kv1 kv2, In kv1 o1 -> In kv2 o2 -> str_eqb (fst kv1) (fst kv2) = false) ->
    fold_left parse_line (map stringify_entry o2) o1 = o1 ++ o2.
Proof.
  induction o2 as [|[k v] r IH]; intros o1 Hok Hdis.
  - simpl; rewrite app_nil_r; reflexivity.
  - destruct (codec_ok_cons (k, v) r Hok) as (Hk & Hv & Hfresh & Hr).
    simpl fst in *; simpl snd in *.
    simpl map; simpl fold_left.
    rewrite (parse_stringified_entry o1 k v Hk Hv), obj_set_fresh.
    + rewrite IH; [rewrite <- app_assoc; reflexivity|exact Hr|].
      intros kv1 kv2 H1 H2.
      apply in_app_or in H1 as [H1|[<-|[]]].
      * apply Hdis; [exact H1|right; exact H2].
      * simpl; rewrite str_eqb_sym; apply Hfresh; exact H2.
    + intros kv Hkv; apply (Hdis kv (k, v) Hkv); left; reflexivity.
Qed.

Lemma codec_roundtrip (o : object) :
  codec_ok o = true -> parseYaml (stringifyYaml o) = o.
Proof.
  intros Hok.
  assert (Hall : forall kv, In kv o ->
            key_ok (fst kv) = true /\ value_ok (snd kv) = true).
  { induction o as [|kv r IH]; intros x Hx; [destruct Hx|].
    destruct (codec_ok_cons kv r Hok) as (Hk & Hv & _ & Hr).
    destruct Hx as [<-|Hx]; [split; assumption|apply IH; assumption]. }
  unfold stringifyYaml, parseYaml.
  rewrite entries_named.
  - destruct o as [|kv r]; [reflexivity|].
    rewrite split_join.
    + apply (parse_stringified (kv :: r) [] Hok); intros kv1 kv2 [].
    + discriminate.
    + intros l Hl; apply in_map_iff in Hl as ([k v] & <- & Hin).
      destruct (Hall _ Hin) as [Hk Hv]; apply stringified_one_line; assumption.
  - intros kv Hkv; destruct (Hall kv Hkv) as [Hk _].
    unfold key_ok in Hk; apply andb_true_iff in Hk as [_ Hk].
    destruct (array_index (fst kv)); [discriminate|reflexivity].
Qed.

(** X16.  The codec gives back what it was given.  An object of flat
    keys, each once, whose scalars are not of the bracket shape and whose
    lists are not empty and hold items without a comma, is parsed from its
    serialisation as it was: same keys, same order, same values. *)
Theorem parseYaml_stringifyYaml (o : object) :
  codec_ok o = true -> parseYaml (stringifyYaml o) = o.
Proof.
  intros Hok; apply codec_roundtrip; exact Hok.
Qed.

Lemma parseYaml_stringifyYaml_witness :
  parseYaml
    (stringifyYaml
       [ (lit "title", VStr (lit "My note"));
         (lit "tags", VArr [EStr (lit "a"); EStr (lit "b c")]);
         (lit "draft", VStr []) ])
  = [ (lit "title", VStr (lit "My note"));
      (lit "tags", VArr [EStr (lit "a"); EStr (lit "b c")]);
      (lit "draft", VStr []) ].
Proof.
  apply parseYaml_stringifyYaml; reflexivity.
Defined.

(** ** Sets, the create handler and the modal *)

Section SetLike.
Context {A : Type} (same : A -> A -> bool).

Lemma set_like_add (s : list A) (x : A) :
  set_like same s -> set_like same (Set_add same s x).
Proof.
  intros H; unfold Set_add.
  destruct (existsb (same x) s) eqn:E; [exact H|].
  intros s1 y s2 Hs.
  destruct (exists_last (l := y :: s2)) as (m & z & Em); [discriminate|].
  destruct m as [|y' m].
  - injection Em as -> ->.
    apply app_inj_tail in Hs as [-> ->]; exact E.
  - injection Em as <- ->.
    change (s1 ++ y :: m ++ [z]) with (s1 ++ (y :: m) ++ [z]) in Hs.
    rewrite app_assoc in Hs.
    apply app_inj_tail in Hs as [-> _].
    apply (H s1 y m); reflexivity.
Qed.

Lemma set_like_fold (l s : list A) :
  set_like same s -> set_like same (fold_left (Set_add same) l s).
Proof.
  revert s; induction l as [|x l IH]; intros s H; [exact H|].
  apply IH, set_like_add, H.
Qed.

Lemma new_Set_set_like (l : list A) : set_like same (new_Set same l).
Proof.
  apply set_like_fold; intros s1 y s2 H; destruct s1; discriminate.
Qed.

Lemma set_like_fold_id (m2 m1 : list A) :
  set_like same (m1 ++ m2) -> fold_left (Set_add same) m2 m1 = m1 ++ m2.
Proof.
  revert m1; induction m2 as [|y r IH]; intros m1 H; simpl.
  - rewrite app_nil_r; reflexivity.
  - unfold Set_add at 2; rewrite (H m1 y r eq_refl).
    rewrite IH; rewrite <- app_assoc; [reflexivity|exact H].
Qed.

(** A set made from the array of a set is that set. *)
Lemma new_Set_idem (l : list A) : new_Set same (new_Set same l) = new_Set same l.
Proof.
  unfold new_Set at 1; apply (set_like_fold_id (new_Set same l) []).
  apply new_Set_set_like.
Qed.

Lemma set_like_NoDup (s : list A) :
  (forall x, same x x = true) -> set_like same s -> NoDup s.
Proof.
  intros Hrefl; induction s as [|y s IH] using rev_ind; intros H; [constructor|].
  apply NoDup_snoc.
  - apply IH; intros s1 z s2 ->.
    apply (H s1 z (s2 ++ [y])); rewrite <- app_assoc; reflexivity.
  - intros Hin.
    assert (E : existsb (same y) s = true)
      by (apply existsb_exists; exists y; split; [exact Hin|apply Hrefl]).
    rewrite (H s y [] eq_refl) in E; discriminate.
Qed.
End SetLike.

Lemma filter_all {A} (f : A -> bool) (l : list A) :
  (forall x, In x l -> f x = true) -> filter f l = l.
Proof.
  induction l as [|a l IH]; intros H; [reflexivity|].
  simpl; rewrite (H a (or_introl eq_refl)); f_equal.
  apply IH; intros x Hx; apply H; right; exact Hx.
Qed.

(** X17.  A file created in a folder, before the cache knows it: when the
    folder resolves to no tag nothing is written; otherwise every resolved
    tag, direct or inherited, is appended as a hashtag after the text and
    two line feeds, in the order of resolution. *)
Theorem on_create_new_file (st : FolderTagsSettings) (parent : option jstring)
    (content : jstring) (n : nat) :
  let folderPath :=
    match parent with
    | Some p => if truthy p then p else []
    | None => []
    end in
  let resolved := fst (getFolderTags st folderPath n) in
  fst (on_create st parent content None n)
  = if is_nil resolved then NoWrite
    else Write (trimEnd content ++ lit "\n\n" ++ join (lit " ") (map hashtag resolved)).
Proof.
  intros folderPath resolved.
  unfold on_create; fold folderPath; rewrite bind_run; fold resolved; simpl fst.
  assert (E : new_Set same_object resolved = resolved).
  { unfold resolved, getFolderTags; rewrite bind_run; simpl fst.
    apply new_Set_idem. }
  rewrite E.
  destruct resolved as [|t l] eqn:Er; [reflexivity|].
  simpl length; simpl Nat.ltb; cbv iota; simpl is_nil; cbv iota.
  rewrite addTagsToFileContent_place; simpl is_nil; cbv iota; cbv zeta.
  rewrite filter_all by reflexivity.
  reflexivity.
Qed.

(** X18.  In the revision with string tags the answer of [getFolderTags]
    has every tag name once, and holds exactly the direct tags of the
    folder and the tags inherited along its path. *)
Theorem string_tags_getFolderTags_set (st : StringTags.FolderTagsSettings)
    (p : jstring) :
  NoDup (StringTags.getFolderTags st p)
  /\ forall t,
       In t (StringTags.getFolderTags st p)
       <-> In t (match StringTags.find_record st p with
                 | Some folderTag => StringTags.tags folderTag
                 | None => []
                 end)
           \/ In t (StringTags.getInheritedTags st p).
Proof.
  unfold StringTags.getFolderTags; split.
  - apply (set_like_NoDup str_eqb); [apply str_eqb_refl|apply new_Set_set_like].
  - intros t; rewrite <- in_app_iff; split; [apply new_Set_incl|].
    intros H; apply new_Set_In; [|exact H].
    intros y _ E; apply str_eqb_eq in E; congruence.
Qed.

Lemma has_name_false (l : list FolderTag) (name : jstring) :
  has_name l name = false -> ~ In name (map tag l).
Proof.
  intros H Hin; apply in_map_iff in Hin as (t & E & Ht).
  assert (has_name l name = true); [|congruence].
  apply existsb_exists; exists t; split; [exact Ht|].
  rewrite E; apply str_eqb_refl.
Qed.

Lemma NoDup_map_filter {A B} (f : A -> B) (g : A -> bool) (l : list A) :
  NoDup (map f l) -> NoDup (map f (filter g l)).
Proof.
  induction l as [|a l IH]; simpl; intros H; [constructor|].
  inversion H as [|? ? Hnot Hnd]; subst.
  destruct (g a); [|apply IH; exact Hnd].
  simpl; constructor; [|apply IH; exact Hnd].
  intros Hin; apply Hnot.
  apply in_map_iff in Hin as (x & E & Hx).
  apply filter_In in Hx as [Hx _]; rewrite <- E; apply in_map; exact Hx.
Qed.

Lemma modal_type_names (l : list FolderTag) (value : jstring) (n : nat) :
  NoDup (map tag l) -> NoDup (map tag (fst (modal_type l value n))).
Proof.
  intros H; unfold modal_type.
  destruct (truthy (trim value) && negb (has_name l (trim value))) eqn:E; [|exact H].
  apply andb_true_iff in E as [_ E]; apply negb_true_iff in E.
  simpl; rewrite map_app; simpl.
  apply NoDup_snoc; [exact H|apply has_name_false; exact E].
Qed.

Lemma modal_run_names (events : list modal_event) :
  forall l n, NoDup (map tag l) -> NoDup (map tag (fst (modal_run l events n))).
Proof.
  induction events as [|[value|name] rest IH]; intros l n H; [exact H| |].
  - simpl; rewrite bind_run; apply IH, modal_type_names, H.
  - simpl; apply IH, NoDup_map_filter, H.
Qed.

(** X19.  The modal keeps tag names apart.  Started with tags of distinct
    names, whatever is typed and deleted, the list handed to the submit
    handler has no name twice, and holds direct tags only. *)
Theorem modal_submit_names (l : list FolderTag) (events : list modal_event)
    (value : jstring) (n : nat) :
  NoDup (map tag l) ->
  let shown := modal_run l events n in
  let out := fst (modal_submit (fst shown) value (snd shown)) in
  NoDup (map tag out) /\ forall t, In t out -> inherited t = false.
Proof.
  intros H shown out; unfold out, modal_submit; rewrite bind_run; simpl fst.
  split.
  - apply NoDup_map_filter, modal_type_names, modal_run_names, H.
  - intros t Ht; apply submitted_direct in Ht as [_ Ht]; exact Ht.
Qed.

Lemma modal_submit_names_witness :
  let shown :=
    modal_run [mkFolderTag 0 (lit "a") false; mkFolderTag 3 (lit "up") true]
      [TypeTag (lit " b "); TypeTag (lit "a"); DeleteTag (lit "a")] 4 in
  let out := fst (modal_submit (fst shown) (lit "up") (snd shown)) in
  NoDup (map tag out) /\ forall t, In t out -> inherited t = false.
Proof.
  apply modal_submit_names.
  repeat constructor; simpl; intuition discriminate.
Defined.




(** ** Patching a block the codec wrote, and the files of a folder *)

Lemma obj_get_delete (o : object) (k : jstring) :
  obj_get (obj_delete o k) k = None.
Proof.
  unfold obj_delete; induction o as [|[k' v] r IH]; [reflexivity|].
  simpl; destruct (str_eqb k' k) eqn:E; simpl; [exact IH|].
  rewrite E; exact IH.
Qed.

(** X21.  Removing tags from the frontmatter of a file whose block is a
    serialisation of the codec: the tags whose name is in the set are
    taken out of the list, the others stay in their order, and when none
    is left the [tags] key is deleted; the new block is written between
    the opening dashes and the closing dashes, with the rest of the text
    after it. *)
Theorem remove_from_frontmatter_tags (o : object) (l : list elem) (after : jstring)
    (metadata : option CachedMetadata) (tagsForRemoval : list FolderTag) :
  has_frontmatter metadata = true ->
  codec_ok o = true ->
  obj_get o (lit "tags") = Some (VArr l) ->
  includes (stringifyYaml o) (lit "\n---") = false ->
  let kept :=
    filter (fun e =>
      negb (existsb (fun t => str_eqb (tag t) (show_elem e)) tagsForRemoval)) l in
  let o' :=
    if is_nil kept then obj_delete o (lit "tags")
    else obj_set o (lit "tags") (VArr kept) in
  has_char DOLLAR (stringifyYaml o') = false ->
  remove_from_frontmatter (lit "---\n" ++ stringifyYaml o ++ lit "\n---" ++ after)
    metadata tagsForRemoval
  = lit "---\n" ++ stringifyYaml o' ++ lit "---" ++ after
  /\ (kept = [] -> obj_get o' (lit "tags") = None).
Proof.
  intros Hfm Hok Htags Hblock kept o' Hplain.
  assert (Hm : frontmatter_match (lit "---\n" ++ stringifyYaml o ++ lit "\n---" ++ after)
               = Some (stringifyYaml o, after)).
  { unfold frontmatter_match.
    replace (strip_prefix (lit "---\n")
               (lit "---\n" ++ stringifyYaml o ++ lit "\n---" ++ after))
      with (Some (stringifyYaml o ++ lit "\n---" ++ after))
      by (symmetry; apply strip_prefix_spec; reflexivity).
    apply find_close_complete; exact Hblock. }
  split.
  - unfold remove_from_frontmatter; rewrite Hfm, Hm, (codec_roundtrip o Hok), Htags.
    fold kept; fold o'.
    unfold replace_frontmatter; rewrite Hm.
    rewrite getSubstitution_plain.
    + rewrite <- !app_assoc; reflexivity.
    + rewrite !has_char_app, Hplain; reflexivity.
  - intros E; unfold o'; rewrite E; apply obj_get_delete.
Qed.

Lemma remove_from_frontmatter_tags_witness :
  remove_from_frontmatter (lit "---\ntitle: T\ntags: [a, b]\n---\nBody")
    with_frontmatter [mkFolderTag 0 (lit "a") false; mkFolderTag 1 (lit "b") false]
  = lit "---\ntitle: T---\nBody"
  /\ (@nil elem = [] -> obj_get [(lit "title", VStr (lit "T"))] (lit "tags") = None).
Proof.
  apply (remove_from_frontmatter_tags
           [(lit "title", VStr (lit "T")); (lit "tags", VArr [EStr (lit "a"); EStr (lit "b")])]
           [EStr (lit "a"); EStr (lit "b")] (lit "\nBody") with_frontmatter
           [mkFolderTag 0 (lit "a") false; mkFolderTag 1 (lit "b") false]);
    reflexivity.
Defined.




(** ** One inline occurrence *)

Lemma replace_skip (alts : list jstring) (x s : jstring) :
  replace_tag_matches alts (length x) (x ++ s) = replace_tag_matches alts 0 s.
Proof.
  induction x as [|a x IH]; [reflexivity|exact IH].
Qed.

Lemma replace_prefix (alts : list jstring) (pre rest : jstring) :
  (forall p1 p2, pre = p1 ++ p2 -> p2 <> [] -> match_here alts (p2 ++ rest) = None) ->
  replace_tag_matches alts 0 (pre ++ rest) = pre ++ replace_tag_matches alts 0 rest.
Proof.
  induction pre as [|c pre IH]; intros H; [reflexivity|].
  change ((c :: pre) ++ rest) with (c :: (pre ++ rest)).
  cbn [replace_tag_matches].
  change (c :: (pre ++ rest)) with ((c :: pre) ++ rest).
  rewrite (H [] (c :: pre) eq_refl) by discriminate.
  simpl app; f_equal; apply IH.
  intros p1 p2 -> Hne; apply (H (c :: p1) p2); [reflexivity|exact Hne].
Qed.

Lemma hash_free_head (tagname : jstring) (s : jstring) :
  match s with [] => True | a :: _ => N.eqb HASH a = false end ->
  strip_prefix (HASH :: tagname) s = None.
Proof.
  destruct s as [|a s]; [reflexivity|]; intros H.
  cbn [strip_prefix]; rewrite H; reflexivity.
Qed.

Lemma no_match_in_text (t : FolderTag) (p2 rest : jstring) :
  has_char HASH p2 = false -> p2 <> [] ->
  (forall y d, p2 = y ++ [d] -> is_space d = false) ->
  match_here [hashtag t] (p2 ++ rest) = None.
Proof.
  unfold match_here.
  induction p2 as [|a p2 IH]; intros Hfree Hne Hlast; [congruence|].
  change (has_char HASH (a :: p2)) with (N.eqb HASH a || has_char HASH p2) in Hfree.
  apply orb_false_iff in Hfree as [Ha Hfree].
  change ((a :: p2) ++ rest) with (a :: (p2 ++ rest)).
  cbn [count_space]; destruct (is_space a) eqn:Es.
  - cbn [skipn].
    assert (Hp2 : p2 <> []).
    { intros ->; rewrite (Hlast [] a eq_refl) in Es; discriminate. }
    specialize (IH Hfree Hp2).
    destruct (match_alt [hashtag t] (skipn (count_space (p2 ++ rest)) (p2 ++ rest)));
      [|reflexivity].
    exfalso.
    cut (@Some nat (count_space (p2 ++ rest) + n) = None); [discriminate|].
    apply IH; intros y d ->; apply (Hlast (a :: y) d); reflexivity.
  - cbn [skipn match_alt]; unfold hashtag.
    rewrite hash_free_head; [reflexivity|exact Ha].
Qed.

Lemma hash_free_untouched (t : FolderTag) (s : jstring) :
  has_char HASH s = false -> replace_tag_matches [hashtag t] 0 s = s.
Proof.
  intros Hfree; apply replace_no_match; intros pre s' ->.
  rewrite has_char_app in Hfree; apply orb_false_iff in Hfree as [_ Hs].
  cbn [match_alt]; unfold hashtag; rewrite hash_free_head; [reflexivity|].
  destruct s' as [|a s']; [exact I|].
  change (has_char HASH (a :: s')) with (N.eqb HASH a || has_char HASH s') in Hs.
  apply orb_false_iff in Hs as [Ha _]; exact Ha.
Qed.

Lemma count_space_run (ws s : jstring) :
  forallb is_space ws = true ->
  match s with [] => True | a :: _ => is_space a = false end ->
  count_space (ws ++ s) = length ws /\ skipn (length ws) (ws ++ s) = s.
Proof.
  intros Hws Hs; induction ws as [|w ws IH]; simpl.
  - split; [|reflexivity].
    destruct s as [|a s]; [reflexivity|]; simpl; rewrite Hs; reflexivity.
  - simpl in Hws; apply andb_true_iff in Hws as [Hw Hws].
    rewrite Hw; destruct (IH Hws) as [E1 E2]; rewrite E1; split; [reflexivity|exact E2].
Qed.

(** X23.  What the removal does to an occurrence of the tag, for a tag
    whose name ends in a word character and has no character with a meaning
    in a pattern, where no frontmatter block is patched (the cache reports
    none, or the text has none).  The text is [pre], white space, the
    hashtag, [post]; [pre] and [post] hold no [#], [pre] does not end in
    white space, and [post] is empty or begins with a character that is
    not a word character.  Then the white space before the tag and the tag
    are replaced by one space; [pre] and [post], with any white space
    [post] begins with, are kept as they are. *)
Theorem remove_one_occurrence (pre ws post x : jstring) (c : char) (t : FolderTag)
    (metadata : option CachedMetadata) :
  has_frontmatter metadata = false
  \/ frontmatter_match (pre ++ ws ++ hashtag t ++ post) = None ->
  literal_name (tag t) = true ->
  tag t = x ++ [c] -> is_word c = true ->
  has_char HASH pre = false -> has_char HASH post = false ->
  (forall y d, pre = y ++ [d] -> is_space d = false) ->
  forallb is_space ws = true ->
  match post with [] => True | w :: _ => is_word w = false end ->
  removeTagsFromFileContent (pre ++ ws ++ hashtag t ++ post) metadata [t]
  = Some (Write (pre ++ SPACE :: post)).
Proof.
  intros Hfm Hlit Hname Hc Hpre Hpost Hlast Hws Hbound.
  assert (Hrep : replace_tag_matches [hashtag t] 0 (pre ++ ws ++ hashtag t ++ post)
                 = pre ++ SPACE :: post).
  { rewrite replace_prefix.
    - f_equal.
      destruct (count_space_run ws (hashtag t ++ post) Hws) as [E1 E2]; [reflexivity|].
      assert (Hm : match_here [hashtag t] (ws ++ hashtag t ++ post)
                   = Some (length (ws ++ hashtag t))).
      { unfold match_here; rewrite E1, E2; cbn [match_alt].
        replace (strip_prefix (hashtag t) (hashtag t ++ post)) with (Some post)
          by (symmetry; apply strip_prefix_spec; reflexivity).
        unfold hashtag at 1; rewrite Hname.
        change (HASH :: x ++ [c]) with ((HASH :: x) ++ [c]); rewrite last_last.
        unfold word_boundary; rewrite Hc.
        destruct post as [|w post]; cbn [hd_error]; [|rewrite Hbound];
          rewrite length_app; reflexivity. }
      rewrite app_assoc in Hm |- *.
      destruct (ws ++ hashtag t) as [|d m] eqn:Em;
        [destruct ws; discriminate Em|].
      change ((d :: m) ++ post) with (d :: (m ++ post)) in Hm |- *.
      cbn [replace_tag_matches]; rewrite Hm; cbn [length].
      rewrite replace_skip, hash_free_untouched by exact Hpost; reflexivity.
    - intros p1 p2 -> Hne.
      rewrite has_char_app in Hpre; apply orb_false_iff in Hpre as [_ Hp2].
      apply no_match_in_text; [exact Hp2|exact Hne|].
      intros y d ->; apply (Hlast (p1 ++ y) d); rewrite app_assoc; reflexivity. }
  unfold removeTagsFromFileContent; cbn [is_nil].
  assert (E : remove_from_frontmatter (pre ++ ws ++ hashtag t ++ post) metadata [t]
              = pre ++ ws ++ hashtag t ++ post).
  { unfold remove_from_frontmatter.
    destruct Hfm as [-> | Hno]; [reflexivity|].
    rewrite Hno; destruct (has_frontmatter metadata); reflexivity. }
  rewrite E; cbn [forallb map]; rewrite Hlit; cbn [andb negb join truthy hashtag].
  fold (hashtag t); rewrite Hrep.
  assert (Hdiff : str_eqb (pre ++ SPACE :: post) (pre ++ ws ++ hashtag t ++ post) = false).
  { destruct (str_eqb _ _) eqn:Eq; [|reflexivity].
    apply str_eqb_eq, app_inv_head in Eq.
    apply (f_equal (@length _)) in Eq.
    rewrite !length_app in Eq; unfold hashtag in Eq; rewrite Hname in Eq.
    cbn [length] in Eq; rewrite length_app in Eq; cbn [length] in Eq; lia. }
  rewrite Hdiff; reflexivity.
Qed.

Lemma remove_one_occurrence_witness :
  removeTagsFromFileContent
    (lit "Content" ++ lit " " ++ hashtag (mkFolderTag 0 (lit "tag1") false) ++ lit " and more")
    None [mkFolderTag 0 (lit "tag1") false]
  = Some (Write (lit "Content" ++ SPACE :: lit " and more")).
Proof.
  apply (remove_one_occurrence (lit "Content") (lit " ") (lit " and more") (lit "tag") 49%N
           (mkFolderTag 0 (lit "tag1") false) None); try reflexivity.
  - left; reflexivity.
  - intros y d E.
    destruct y as [|y0 [|y1 [|y2 [|y3 [|y4 [|y5 [|y6 [|y7 y]]]]]]]];
      try discriminate E; try (destruct y; discriminate E).
    injection E as _ _ _ _ _ _ <-; reflexivity.
Defined.

(** X24.  In the revision with string tags the tags of the frontmatter
    that the cache reports count as existing: when every tag of the set is
    among them, nothing is written. *)
Theorem string_tags_add_listed (content : jstring) (listed : list jstring)
    (inline : option (list jstring)) (newTags : list jstring) :
  (forall t, In t newTags -> In t listed) ->
  StringTags.addTagsToFileContent content
    (Some (StringTags.mkMetadata (Some (Some (StringTags.FmList listed))) inline))
    newTags
  = NoWrite.
Proof.
  intros H; unfold StringTags.addTagsToFileContent.
  destruct (is_nil newTags); [reflexivity|].
  rewrite filter_none; [reflexivity|].
  intros t Ht; apply negb_false_iff.
  destruct (Set_fold_complete str_eqb
              (StringTags.existing_names
                 (Some (StringTags.mkMetadata (Some (Some (StringTags.FmList listed))) inline)))
              [] t) as (y & Hy & Ey).
  - simpl; apply in_or_app; left; apply H; exact Ht.
  - apply existsb_exists; exists y; split; [exact Hy|].
    destruct Ey as [->|Ey]; [apply str_eqb_refl|exact Ey].
Qed.

Lemma string_tags_add_listed_witness :
  StringTags.addTagsToFileContent (lit "---\ntags: [a, b]\n---\nBody")
    (Some (StringTags.mkMetadata (Some (Some (StringTags.FmList [lit "a"; lit "b"]))) None))
    [lit "b"]
  = NoWrite.
Proof.
  apply string_tags_add_listed.
  intros t [<-|[]]; right; left; reflexivity.
Defined.
